(** * Place-search aggregation and ranking: a shallow embedding

    The development follows the API-integration service of the map
    application (the class [ModernPlacesAPI], [searchLocations],
    [searchLocationsByDistanceAndPopularity], [convertToLocation]) and the
    [performSearch] callback of the map component.

    Numbers.  A JavaScript [number] is modelled as a real number ([R]) and
    [Math.sin], [Math.cos], [Math.sqrt], [Math.PI], [Math.max], [Math.min]
    as the functions of the same name of the Reals library: the arithmetic
    is the exact one, rounding of IEEE doubles is not part of the model.
    Comparisons of numbers are the order of [R].

    Strings.  A JavaScript string is modelled as a [string] of 8-bit
    characters; [toLowerCase] and [trim] act on the ASCII letters and the
    ASCII white space. *)

From Stdlib Require Import Reals Lra ZArith String Ascii.
From stdpp Require Import base decidable list gmap strings sorting.

(** ** Geo math *)

Module Geo.
Local Open Scope R_scope.

(** [{ lat: number; lng: number }] *)
Record LatLng : Type := { lat : R; lng : R }.

(** [{ ne: {lat, lng}; sw: {lat, lng} }] *)
Record Bounds : Type := { ne : LatLng; sw : LatLng }.

(** Equality of numbers is decided by [===]. *)
#[global] Instance R_eq_dec : EqDecision R := Req_dec_T.

(** Comparisons of numbers as booleans. *)
Definition Rleb (x y : R) : bool := if Rle_dec x y then true else false.
Definition Rgeb (x y : R) : bool := if Rge_dec x y then true else false.

(** [Math.atan2(y, x)], the angle of the point [(x, y)] in the interval
    (-PI, PI], which the language leaves to its runtime. *)
Definition atan2 (y x : R) : R :=
  if Rlt_dec 0 x then atan (y / x)
  else if Rlt_dec x 0 then
    (if Rle_dec 0 y then atan (y / x) + PI else atan (y / x) - PI)
  else if Rlt_dec 0 y then PI / 2
  else if Rlt_dec y 0 then - (PI / 2)
  else 0.

(** The local [a] of [calculateDistance]. *)
Definition haversine (lat1 lng1 lat2 lng2 : R) : R :=
  let dLat := (lat2 - lat1) * PI / 180 in
  let dLng := (lng2 - lng1) * PI / 180 in
  sin (dLat / 2) * sin (dLat / 2) +
  cos (lat1 * PI / 180) * cos (lat2 * PI / 180) *
  sin (dLng / 2) * sin (dLng / 2).

(** [calculateDistance(lat1, lng1, lat2, lng2)], in kilometers. *)
Definition calculateDistance (lat1 lng1 lat2 lng2 : R) : R :=
  let R_earth := 6371 in
  let a := haversine lat1 lng1 lat2 lng2 in
  let c := 2 * atan2 (sqrt a) (sqrt (1 - a)) in
  R_earth * c.


(** The score as a function of the distance:
    [Math.max(0, 1 - (distance / 50))]. *)
Definition normalizedDistance (distance : R) : R :=
  Rmax 0 (1 - distance / 50).

(** [isWithinBounds(lat, lng)] for the [bounds] of the enclosing search. *)
Definition isWithinBounds (bounds : option Bounds) (lat_ lng_ : R) : bool :=
  match bounds with
  | None => true
  | Some b =>
      Rgeb lat_ (lat (sw b)) && Rleb lat_ (lat (ne b)) &&
      Rgeb lng_ (lng (sw b)) && Rleb lng_ (lng (ne b))
  end.

(** [calculateSearchRadius()], in meters. *)
Definition calculateSearchRadius (bounds : option Bounds) : R :=
  match bounds with
  | None => 50000
  | Some b =>
      let diagonalDistance :=
        calculateDistance (lat (sw b)) (lng (sw b)) (lat (ne b)) (lng (ne b)) in
      let radiusWithBuffer := diagonalDistance * 0.5 * 1.2 * 1000 in
      Rmin radiusWithBuffer 20000
  end.

End Geo.

(** ** JavaScript strings and arrays *)

Module Js.
Local Open Scope string_scope.

(** A string is truthy when it is not empty. *)
Definition truthy (s : string) : bool := negb (String.eqb s "").

(** [s || d] on a string that is always present. *)
Definition or_else (s d : string) : string := if truthy s then s else d.

(** [s || d] on an optional string: [undefined] and [""] are falsy. *)
Definition opt_or_else (s : option string) (d : string) : string :=
  match s with
  | Some v => or_else v d
  | None => d
  end.

Definition toLowerCase_char (c : ascii) : ascii :=
  let n := nat_of_ascii c in
  if (65 <=? n)%nat && (n <=? 90)%nat then ascii_of_nat (n + 32) else c.

(** [s.toLowerCase()] *)
Fixpoint toLowerCase (s : string) : string :=
  match s with
  | EmptyString => EmptyString
  | String c s' => String (toLowerCase_char c) (toLowerCase s')
  end.

(** [s.includes(sub)] *)
Fixpoint includes (s sub : string) : bool :=
  String.prefix sub s ||
  match s with
  | EmptyString => false
  | String _ s' => includes s' sub
  end.

(** Tab, line feed, vertical tab, form feed, carriage return, space. *)
Definition isWhiteSpace (c : ascii) : bool :=
  let n := nat_of_ascii c in
  ((9 <=? n)%nat && (n <=? 13)%nat) || (n =? 32)%nat.

Fixpoint trimStart (s : string) : string :=
  match s with
  | EmptyString => EmptyString
  | String c s' => if isWhiteSpace c then trimStart s' else s
  end.

Fixpoint trimEnd (s : string) : string :=
  match s with
  | EmptyString => EmptyString
  | String c s' =>
      let t := trimEnd s' in
      if isWhiteSpace c && negb (truthy t) then EmptyString else String c t
  end.

(** [s.trim()] *)
Definition trim (s : string) : string := trimEnd (trimStart s).


(** [l.slice(0, end)]: a negative [end] counts from the end of the array. *)
Definition slice0 {A : Type} (l : list A) (end_ : Z) : list A :=
  if (end_ <? 0)%Z
  then take (Z.to_nat (Z.max (Z.of_nat (length l) + end_) 0)) l
  else take (Z.to_nat end_) l.

(** [l.sort(compareFn)].  The language requires the sort to be stable and
    to put [a] before [b] when [compareFn(a, b) < 0]; for a comparator that
    is the difference of a numeric key there is one such result, the one of
    the stable insertion sort below. *)
Section ArraySort.
Context {A : Type} (compareFn : A -> A -> R).

Fixpoint sort_insert (x : A) (l : list A) : list A :=
  match l with
  | [] => [x]
  | y :: l' =>
      if Rlt_dec 0 (compareFn x y) then y :: sort_insert x l'
      else x :: y :: l'
  end.

Definition sort (l : list A) : list A := foldr sort_insert [] l.
End ArraySort.

(** A promise, as its state when the event loop has run dry. *)
Inductive Promise (A : Type) : Type :=
  | Pending
  | Fulfilled (value : A)
  | Rejected (reason : string).
Arguments Pending {A}.
Arguments Fulfilled {A} value.
Arguments Rejected {A} reason.

Definition isPending {A : Type} (p : Promise A) : bool :=
  match p with Pending => true | _ => false end.

End Js.

(** ** The places service of the SDK and its adapter *)

Module ModernPlacesAPI.
Import Geo Js.
Local Open Scope string_scope.

(** The record the searches of this service return. *)
Record GeocodingResult : Type := {
  place_id : string;
  formatted_address : string;
  geometry : LatLng;                  (* geometry.location *)
  name : string;
  types : list string;
  rating : option R;
  user_ratings_total : option R;
  photos : option (list string)       (* the photo_reference of each photo *)
}.

(** [google.maps.places.PlaceResult]: every field is optional. *)
Record PlaceResult : Type := {
  pr_place_id : option string;
  pr_name : option string;
  pr_formatted_address : option string;
  pr_location : option LatLng;        (* geometry?.location *)
  pr_rating : option R;
  pr_user_ratings_total : option R;
  pr_types : option (list string);
  pr_photos : option (list string)    (* getUrl() of each photo *)
}.

(** [google.maps.places.PlacesServiceStatus] *)
Inductive PlacesServiceStatus : Type :=
  | OK | ZERO_RESULTS | OVER_QUERY_LIMIT | REQUEST_DENIED
  | INVALID_REQUEST | UNKNOWN_ERROR | NOT_FOUND.

(** One invocation of the callback by the service: the page of results,
    the status, and the pagination object with its [hasNextPage]. *)
Record Callback : Type := {
  cb_results : option (list PlaceResult);
  cb_status : PlacesServiceStatus;
  cb_pagination : option bool
}.

(** What the adapter hands to the service. *)
Inductive Request : Type :=
  | TextSearchRequest (query : string) (location : option (LatLng * R))
      (type : option string)
  | PlaceSearchRequest (location : LatLng) (radius : R) (type : option string)
  | FindPlaceFromQueryRequest (query : string)
      (locationBias : option (LatLng * R)).

(** The environment of a search: whether the SDK is loaded
    ([typeof google !== 'undefined' && google.maps && google.maps.places]),
    the callbacks the service makes for a request, in order (the second and
    later ones answer [nextPage()]), and the order in which the event loop
    completes calls that are in flight together. *)
Record Env : Type := {
  google_loaded : bool;
  service : Request -> list Callback;
  completion : forall {A : Type}, list A -> list A
}.

(** The conversion [results.map(place => ({...}))] of the three searches. *)
Definition convertPlace (place : PlaceResult) : GeocodingResult :=
  {| place_id := opt_or_else (pr_place_id place) "";
     name := opt_or_else (pr_name place) "Unknown";
     formatted_address :=
       opt_or_else (pr_formatted_address place) "No address available";
     geometry :=
       {| lat := match pr_location place with Some l => lat l | None => 0%R end;
          lng := match pr_location place with Some l => lng l | None => 0%R end |};
     rating := pr_rating place;
     user_ratings_total := pr_user_ratings_total place;
     types := default [] (pr_types place);
     photos := Some (default [] (pr_photos place)) |}.

Definition hasNextPage (pagination : option bool) : bool :=
  match pagination with Some b => b | None => false end.

(** The callback of [textSearch] and [nearbySearch], run over the
    invocations the service makes: [allResults] is the array of the
    closure, the result is the state of the promise. *)
Fixpoint performSearch (allResults : list GeocodingResult)
    (calls : list Callback) : Promise (list GeocodingResult) :=
  match calls with
  | [] => Pending
  | cb :: rest =>
      match cb_status cb, cb_results cb with
      | OK, Some results =>
          let allResults' := (allResults ++ map convertPlace results)%list in
          if hasNextPage (cb_pagination cb) && (length allResults' <? 60)%nat
          then performSearch allResults' rest
          else Fulfilled allResults'
      | _, _ => Fulfilled allResults
      end
  end.

(** [request.radius = radius || 16093] *)
Definition radius_or_default (radius : option R) : R :=
  match radius with
  | Some r => if Req_dec_T r 0 then 16093%R else r
  | None => 16093%R
  end.

(** [if (type) request.type = type] *)
Definition type_of_request (type : option string) : option string :=
  match type with
  | Some t => if truthy t then Some t else None
  | None => None
  end.

Definition textSearchRequest (query : string) (location : option LatLng)
    (radius : option R) (type : option string) : Request :=
  TextSearchRequest query
    (match location with
     | Some l => Some (l, radius_or_default radius)
     | None => None
     end)
    (type_of_request type).

(** [textSearch(query, location?, radius?, type?)] *)
Definition textSearch (env : Env) (query : string) (location : option LatLng)
    (radius : option R) (type : option string)
    : Promise (list GeocodingResult) :=
  if negb (google_loaded env) then Rejected "Google Maps API not loaded"
  else performSearch []
         (service env (textSearchRequest query location radius type)).

(** [nearbySearch(location, radius, type?)] *)
Definition nearbySearch (env : Env) (location : LatLng) (radius : R)
    (type : option string) : Promise (list GeocodingResult) :=
  if negb (google_loaded env) then Rejected "Google Maps API not loaded"
  else performSearch []
         (service env (PlaceSearchRequest location radius (type_of_request type))).

Definition findPlaceRequest (query : string) (location : option LatLng)
    (radius : option R) : Request :=
  FindPlaceFromQueryRequest query
    (match location with
     | Some l => Some (l, radius_or_default radius)
     | None => None
     end).

(** [findPlaceFromQuery(query, location?, radius?)]: one callback, no
    pagination. *)
Definition findPlaceFromQuery (env : Env) (query : string)
    (location : option LatLng) (radius : option R)
    : Promise (list GeocodingResult) :=
  if negb (google_loaded env) then Rejected "Google Maps API not loaded"
  else
    match service env (findPlaceRequest query location radius) with
    | [] => Pending
    | cb :: _ =>
        match cb_status cb, cb_results cb with
        | OK, Some results => Fulfilled (map convertPlace results)
        | _, _ => Fulfilled []
        end
    end.

(** The requests that reach the service when a method of the adapter is
    called: none when the SDK is not loaded. *)
Definition issued (env : Env) (r : Request) : list Request :=
  if google_loaded env then [r] else [].

End ModernPlacesAPI.

(** ** Category classifier *)

Module Classifier.
Import Js.
Local Open Scope string_scope.

(** The keyword test of [searchLocations], which the map component repeats
    as [detectCategoryFromQuery]: the first category, in the order of the
    branches, one of whose keywords occurs in the lower-cased query. *)
Definition detectCategoryFromQuery (query : string) : option string :=
  let lowerQuery := toLowerCase query in
  if includes lowerQuery "restaurant" || includes lowerQuery "food"
     || includes lowerQuery "dining" then Some "restaurants"
  else if includes lowerQuery "hotel" || includes lowerQuery "lodging"
     || includes lowerQuery "accommodation" then Some "hotels"
  else if includes lowerQuery "attraction" || includes lowerQuery "tourist"
     || includes lowerQuery "museum" then Some "attractions"
  else if includes lowerQuery "shopping" || includes lowerQuery "mall"
     || includes lowerQuery "store" then Some "shopping"
  else if includes lowerQuery "cafe" || includes lowerQuery "coffee"
     || includes lowerQuery "coffee shop" then Some "cafes"
  else None.

Definition one_of (s : string) (l : list string) : bool :=
  bool_decide (s ∈ l).

(** The [switch (placeType)] inside [place.types.some(...)]; the case
    ['establishment'] exists in the distance search only. *)
Definition isCorrectType (withEstablishment : bool) (placeType type : string)
    : bool :=
  if String.eqb placeType "restaurant" then
    one_of type ["restaurant"; "food"; "meal_takeaway"; "meal_delivery"]
  else if String.eqb placeType "lodging" then
    one_of type ["lodging"; "hotel"]
  else if String.eqb placeType "tourist_attraction" then
    one_of type ["tourist_attraction"; "point_of_interest"]
  else if String.eqb placeType "shopping_mall" then
    one_of type ["shopping_mall"; "store"; "shopping"]
  else if String.eqb placeType "cafe" then
    one_of type ["cafe"; "food"]
  else if withEstablishment && String.eqb placeType "establishment" then
    one_of type ["establishment"; "point_of_interest"; "store"; "restaurant";
                 "lodging"; "tourist_attraction"; "cafe"; "food"]
  else true.

(** [if (placeType && place.types && place.types.length > 0)] with the
    [some] test and its early [return]: [false] when the place is dropped. *)
Definition passesTypeFilter (withEstablishment : bool)
    (placeType : option string) (types_ : list string) : bool :=
  match placeType with
  | Some pt =>
      if truthy pt && (0 <? length types_)%nat
      then existsb (isCorrectType withEstablishment pt) types_
      else true
  | None => true
  end.

End Classifier.

(** ** The accumulator of a search *)

Module Accumulator.
Import Geo Js ModernPlacesAPI.
Local Open Scope string_scope.

(** [allResults] and [seenPlaceIds] of one search. *)
Record Acc : Type := {
  allResults : list GeocodingResult;
  seenPlaceIds : gset string
}.

Definition empty : Acc := {| allResults := []; seenPlaceIds := ∅ |}.

(** The record [allResults.push({...})] appends. *)
Definition pushed (place : GeocodingResult) : GeocodingResult :=
  {| place_id := place_id place;
     name := or_else (name place) "Unknown";
     formatted_address :=
       or_else (formatted_address place) "No address available";
     geometry := {| lat := lat (geometry place); lng := lng (geometry place) |};
     rating := rating place;
     user_ratings_total := user_ratings_total place;
     types := types place;
     photos := Some (default [] (photos place)) |}.

(** [seenPlaceIds.add(place.place_id); allResults.push({...})] *)
Definition add (st : Acc) (place : GeocodingResult) : Acc :=
  {| allResults := (allResults st ++ [pushed place])%list;
     seenPlaceIds := {[ place_id place ]} ∪ seenPlaceIds st |}.

(** The set of seen identifiers is the set of the identifiers of the
    results, none of them empty, none of them twice. *)
Definition consistent (st : Acc) : Prop :=
  (forall i : string, i ∈ seenPlaceIds st <-> i ∈ place_id <$> allResults st) /\
  NoDup (place_id <$> allResults st) /\
  Forall (fun r => place_id r <> "") (allResults st).

(** [place.place_id && !seenPlaceIds.has(place.place_id)] *)
Definition isNew (st : Acc) (place : GeocodingResult) : bool :=
  truthy (place_id place) &&
  negb (bool_decide (place_id place ∈ seenPlaceIds st)).

End Accumulator.

(** ** [searchLocationsByDistanceAndPopularity] *)

Module DistanceSearch.
Import Geo Js ModernPlacesAPI Classifier Accumulator.
Local Open Scope string_scope.

(** The [switch (category)] that converts the category to a type of the
    service. *)
Definition placeTypeOf (category : string) : option string :=
  if one_of category ["restaurants"; "restaurant"] then Some "restaurant"
  else if one_of category ["hotels"; "lodging"] then Some "lodging"
  else if one_of category ["attractions"; "tourist_attraction"]
    then Some "tourist_attraction"
  else if one_of category ["shopping"; "shopping_mall"; "store"]
    then Some "shopping_mall"
  else if one_of category ["cafes"; "cafe"] then Some "cafe"
  else if one_of category ["establishment"] then Some "establishment"
  else None.

(** [config.app.maxSearchResults] *)
Definition maxSearchResults : Z := 80.

Section Closure.
Variables (category : string) (location : LatLng) (bounds : option Bounds).

(** The body of [places.forEach(place => {...})]. *)
Definition addUniqueResult (st : Acc) (place : GeocodingResult) : Acc :=
  if isNew st place then
    if negb (passesTypeFilter true (placeTypeOf category) (types place))
    then st
    else if negb (isWithinBounds bounds (lat (geometry place))
                    (lng (geometry place)))
    then st
    else add st place
  else st.

Definition addUniqueResults (st : Acc) (places : list GeocodingResult)
    : Acc :=
  fold_left addUniqueResult places st.

(** [calculateScore(place)] *)
Definition calculateScore (place : GeocodingResult) : R :=
  let distance :=
    calculateDistance (lat location) (lng location)
      (lat (geometry place)) (lng (geometry place)) in
  normalizedDistance distance.

(** The comparator of the final sort: [scoreB - scoreA]. *)
Definition byScore (a b : GeocodingResult) : R :=
  (calculateScore b - calculateScore a)%R.

(** One strategy: [try { addUniqueResults(await ...) } catch { warn }]. *)
Definition strategy (st : Acc) (p : Promise (list GeocodingResult)) : Acc :=
  match p with
  | Fulfilled places => addUniqueResults st places
  | _ => st
  end.

(** The places the strategies deliver, in the order in which they reach
    [addUniqueResults]. *)
Definition arrived (arrivals : list (Promise (list GeocodingResult)))
    : list GeocodingResult :=
  flat_map (fun p => match p with Fulfilled places => places | _ => [] end)
    arrivals.

(** The accumulator when every strategy has run. *)
Definition merged (arrivals : list (Promise (list GeocodingResult))) : Acc :=
  fold_left strategy arrivals Accumulator.empty.

(** A place goes through both filters of [addUniqueResult]. *)
Definition accepted (place : GeocodingResult) : bool :=
  passesTypeFilter true (placeTypeOf category) (types place) &&
  isWithinBounds bounds (lat (geometry place)) (lng (geometry place)).

(** [await Promise.all(searches)], then the sort and the slice; the
    strategies are given in the order in which they complete. *)
Definition aggregate (arrivals : list (Promise (list GeocodingResult)))
    (maxResults : Z) : Promise (list GeocodingResult) :=
  if existsb isPending arrivals then Pending
  else
    Fulfilled (slice0 (sort byScore (allResults (merged arrivals))) maxResults).

(** The calls [performSearches] launches, in the order of the source. *)
Definition searches (env : Env) : list (Promise (list GeocodingResult)) :=
  let searchRadius := calculateSearchRadius bounds in
  let placeType := placeTypeOf category in
  [ textSearch env category (Some location) (Some searchRadius) placeType;
    nearbySearch env location searchRadius placeType;
    findPlaceFromQuery env category (Some location) (Some searchRadius);
    textSearch env (category ++ " near me") (Some location)
      (Some searchRadius) placeType;
    textSearch env ("best " ++ category) (Some location)
      (Some searchRadius) placeType;
    textSearch env ("popular " ++ category) (Some location)
      (Some searchRadius) placeType;
    textSearch env ("top " ++ category) (Some location)
      (Some searchRadius) placeType ].

(** The requests these calls hand to the service. *)
Definition requests (env : Env) : list Request :=
  if google_loaded env then
    let searchRadius := calculateSearchRadius bounds in
    let placeType := placeTypeOf category in
    [ textSearchRequest category (Some location) (Some searchRadius) placeType;
      PlaceSearchRequest location searchRadius (type_of_request placeType);
      findPlaceRequest category (Some location) (Some searchRadius);
      textSearchRequest (category ++ " near me") (Some location)
        (Some searchRadius) placeType;
      textSearchRequest ("best " ++ category) (Some location)
        (Some searchRadius) placeType;
      textSearchRequest ("popular " ++ category) (Some location)
        (Some searchRadius) placeType;
      textSearchRequest ("top " ++ category) (Some location)
        (Some searchRadius) placeType ]
  else [].

Definition searchLocationsByDistanceAndPopularity (env : Env)
    (maxResults : option Z) : Promise (list GeocodingResult) :=
  if negb (google_loaded env) then Rejected "Google Maps API not available"
  else aggregate (completion env (searches env))
         (default maxSearchResults maxResults).

End Closure.
End DistanceSearch.

(** ** [searchLocations] *)

Module TextSearch.
Import Geo Js ModernPlacesAPI Classifier Accumulator.
Local Open Scope string_scope.

(** [let detectedCategory = category; if (!category) {...}] *)
Definition detectedCategory (query : string) (category : option string)
    : option string :=
  if negb (truthy (default "" category)) then
    match detectCategoryFromQuery query with
    | Some c => Some c
    | None => category
    end
  else category.

(** The [switch (detectedCategory)] that converts the category to a type of
    the service. *)
Definition placeTypeOf (detected : option string) : option string :=
  match detected with
  | Some c =>
      if String.eqb c "restaurants" then Some "restaurant"
      else if String.eqb c "hotels" then Some "lodging"
      else if String.eqb c "attractions" then Some "tourist_attraction"
      else if String.eqb c "shopping" then Some "shopping_mall"
      else if String.eqb c "cafes" then Some "cafe"
      else None
  | None => None
  end.

(** The radius of the search, from the corners of the viewport. *)
Definition searchRadius (location : option LatLng) (bounds : option Bounds)
    : R :=
  match bounds, location with
  | Some b, Some c =>
      let corner (la lo : R) : R :=
        (sqrt ((la - lat c) * (la - lat c) + (lo - lng c) * (lo - lng c))
         * 111000)%R in
      let distanceToNE := corner (lat (ne b)) (lng (ne b)) in
      let distanceToSW := corner (lat (sw b)) (lng (sw b)) in
      let distanceToNW := corner (lat (ne b)) (lng (sw b)) in
      let distanceToSE := corner (lat (sw b)) (lng (ne b)) in
      Rmin (Rmax (Rmax (Rmax distanceToNE distanceToSW) distanceToNW)
              distanceToSE) 16093
  | _, _ => 16093%R
  end.

Section Filter.
Variables (placeType : option string).

(** The body of [places.forEach(place => {...})]: no test of the bounds
    here. *)
Definition addUniqueResult (st : Acc) (place : GeocodingResult) : Acc :=
  if isNew st place then
    if negb (passesTypeFilter false placeType (types place)) then st
    else add st place
  else st.

Definition addUniqueResults (st : Acc) (places : list GeocodingResult)
    : Acc :=
  fold_left addUniqueResult places st.

(** [try { addUniqueResults(await p) } catch { warn }], then the rest. *)
Definition attempt (p : Promise (list GeocodingResult)) (st : Acc)
    (rest : Acc -> Promise (list GeocodingResult))
    : Promise (list GeocodingResult) :=
  match p with
  | Pending => Pending
  | Fulfilled places => rest (addUniqueResults st places)
  | Rejected _ => rest st
  end.
End Filter.

Definition searchLocations (env : Env) (query : string)
    (category : option string) (location : option LatLng)
    (bounds : option Bounds) : Promise (list GeocodingResult) :=
  if negb (google_loaded env) then Rejected "Google Maps API not available"
  else
    let placeType := placeTypeOf (detectedCategory query category) in
    let radius := searchRadius location bounds in
    attempt placeType (textSearch env query location (Some radius) placeType)
      Accumulator.empty (fun st1 =>
    let nearby (rest : Acc -> Promise (list GeocodingResult)) :=
      match location, placeType with
      | Some l, Some t =>
          if truthy t
          then attempt placeType (nearbySearch env l radius placeType) st1 rest
          else rest st1
      | _, _ => rest st1
      end in
    nearby (fun st2 =>
    let find (rest : Acc -> Promise (list GeocodingResult)) :=
      match location with
      | Some l =>
          attempt placeType
            (findPlaceFromQuery env query location (Some radius)) st2 rest
      | None => rest st2
      end in
    find (fun st3 =>
    Fulfilled (slice0 (allResults st3) DistanceSearch.maxSearchResults)))).

End TextSearch.

(** ** Presentation mapper *)

Module Mapper.
Import Geo Js ModernPlacesAPI.
Local Open Scope string_scope.

(** The [type] of a [Location]. *)
Inductive LocationType : Type :=
  | restaurant | hotel | attraction | business | other.

(** The display record: [Location] of the types of the application, as
    [convertToLocation] fills it. *)
Record Location : Type := {
  id : string;
  loc_place_id : string;
  loc_name : string;
  address : string;
  latitude : R;
  longitude : R;
  type : LocationType;
  loc_rating : option R;
  loc_user_ratings_total : option R;
  description : string;
  loc_photos : option (list string)
}.

Definition includes_type (types_ : list string) (t : string) : bool :=
  bool_decide (t ∈ types_).

(** [convertToLocation(result)] *)
Definition convertToLocation (result : GeocodingResult) : Location :=
  let types_ := types result in
  let type_ :=
    if includes_type types_ "restaurant" || includes_type types_ "food"
      then restaurant
    else if includes_type types_ "lodging" || includes_type types_ "hotel"
      then hotel
    else if includes_type types_ "tourist_attraction"
            || includes_type types_ "point_of_interest"
      then attraction
    else if includes_type types_ "establishment"
            || includes_type types_ "store"
      then business
    else other in
  {| id := place_id result;
     loc_place_id := place_id result;
     loc_name := or_else (name result) "Unknown Location";
     address := formatted_address result;
     latitude := lat (geometry result);
     longitude := lng (geometry result);
     type := type_;
     loc_rating := rating result;
     loc_user_ratings_total := user_ratings_total result;
     description := formatted_address result;
     loc_photos := photos result |}.

End Mapper.

(** ** The map component: [performSearch] *)

Module App.
Import Geo Js ModernPlacesAPI Classifier Mapper.
Local Open Scope string_scope.

(** The state the callback writes: [searchResults], the markers drawn by
    [addMarkers], [error] and [isLoading]. *)
Record State : Type := {
  searchResults : list Location;
  markers : list Location;
  error : option string;
  isLoading : bool
}.

(** [mapInstanceRef.current], with what [getCenter()] and [getBounds()]
    return. *)
Record MapInstance : Type := {
  getCenter : option LatLng;
  getBounds : option Bounds
}.

(** [setSearchResults(locations); addMarkers(locations)] *)
Definition showResults (st : State) (locations : list Location) : State :=
  {| searchResults := locations; markers := locations;
     error := error st; isLoading := isLoading st |}.

Definition setError (st : State) (e : option string) : State :=
  {| searchResults := searchResults st; markers := markers st;
     error := e; isLoading := isLoading st |}.

Definition setIsLoading (st : State) (b : bool) : State :=
  {| searchResults := searchResults st; markers := markers st;
     error := error st; isLoading := b |}.

(** [if (apiResults.length > 0) {...} else {...}] *)
Definition present (st : State) (apiResults : list GeocodingResult) : State :=
  if (0 <? length apiResults)%nat
  then showResults st (map convertToLocation apiResults)
  else showResults st [].

(** [performSearch()]: the state when the event loop has run dry, and the
    requests handed to the service on the way. *)
Definition performSearch (env : Env) (searchQuery : string)
    (mapInstance : option MapInstance) (st : State) : State * list Request :=
  if truthy (trim searchQuery) then
    let st1 := setError (setIsLoading st true) None in
    let searchCenter :=
      match mapInstance with Some m => getCenter m | None => None end in
    let searchBounds :=
      match mapInstance with Some m => getBounds m | None => None end in
    match searchCenter with
    | Some center =>
        let category := detectCategoryFromQuery searchQuery in
        let request :=
          textSearchRequest searchQuery (Some center) (Some 50000%R) None in
        match textSearch env searchQuery (Some center) (Some 50000%R) None with
        | Pending => (st1, issued env request)
        | Fulfilled apiResults =>
            (setIsLoading (present st1 apiResults) false, issued env request)
        | Rejected _ =>
            let fallback := default "establishment" category in
            let calls :=
              (issued env request ++
               DistanceSearch.requests fallback center searchBounds env)%list in
            match DistanceSearch.searchLocationsByDistanceAndPopularity
                    fallback center searchBounds env None with
            | Pending => (st1, calls)
            | Fulfilled apiResults =>
                (setIsLoading (present st1 apiResults) false, calls)
            | Rejected _ =>
                (setIsLoading
                   (setError st1
                      (Some "Search failed. Please check your API key and try again."))
                   false, calls)
            end
        end
    | None => (setIsLoading (showResults st1 []) false, [])
    end
  else (setError (showResults st []) None, []).

End App.

(** ** Pages of a paged search *)

Module Pages.
Import Geo Js ModernPlacesAPI.
Local Open Scope string_scope.

(** What one callback adds to [allResults]. *)
Definition pageResults (cb : Callback) : list GeocodingResult :=
  match cb_status cb, cb_results cb with
  | OK, Some results => map convertPlace results
  | _, _ => []
  end.

(** The number of places of the page of a callback. *)
Definition pageSize (cb : Callback) : nat := length (pageResults cb).

(** A callback after which the search asks for no other page. *)
Definition lastPage (cb : Callback) : bool :=
  match cb_status cb, cb_results cb with
  | OK, Some _ => negb (hasNextPage (cb_pagination cb))
  | _, _ => true
  end.

(** A record with a name, an address and a photo list, as the conversion
    of the adapter makes them. *)
Definition complete (r : GeocodingResult) : Prop :=
  name r <> "" /\ formatted_address r <> "" /\ is_Some (photos r).

(** The result holds the pages of the first callbacks, in their order and
    whole, and fewer than [60 + n] places when no page has more than [n]. *)
Definition wholePages (calls : list Callback) (out : list GeocodingResult)
    : Prop :=
  (exists k, (k <= length calls)%nat /\
     out = flat_map pageResults (take k calls)) /\
  (forall n : nat,
     Forall (fun cb => (pageSize cb <= n)%nat) calls ->
     (length out < 60 + n)%nat).

End Pages.

(** ** Accumulators that start from identifiers already seen *)

Module Seen.
Import Geo Js ModernPlacesAPI Accumulator.
Local Open Scope string_scope.

(** The accumulator holds new places only: an identifier is seen when it
    was seen at the start or is the identifier of a result, and the
    identifiers of the results are not empty, were not seen at the start
    and are not repeated. *)
Definition fresh (start : gset string) (st : Acc) : Prop :=
  (forall i : string,
     i ∈ seenPlaceIds st <-> i ∈ start \/ i ∈ place_id <$> allResults st) /\
  NoDup (place_id <$> allResults st) /\
  Forall (fun r => place_id r <> "" /\ place_id r ∉ start) (allResults st).

(** The shape of the three [addUniqueResults]: a new place that goes
    through the filter [keep] is added, any other place is skipped. *)
Definition filtered (keep : GeocodingResult -> bool)
    (step : Acc -> GeocodingResult -> Acc) : Prop :=
  forall st p, step st p = if isNew st p && keep p then add st p else st.

(** What the accumulator of [searchLocations] and the one of the
    additional results of [searchLocationsExtended] satisfy at each step. *)
Definition textInvariant (start : gset string) (placeType : option string)
    (st : Acc) : Prop :=
  fresh start st /\
  Forall (fun r => Pages.complete r /\
                   Classifier.passesTypeFilter false placeType (types r) = true)
    (allResults st).

End Seen.

(** ** [searchByCategory] and [getNearbyPlaces] *)

Module CategorySearch.
Import Geo Js ModernPlacesAPI Classifier Accumulator.
Local Open Scope string_scope.

(** The [switch (category)] of [searchByCategory]: a category that is not
    one of the five becomes ['establishment']. *)
Definition placeTypeOf (category : string) : string :=
  if String.eqb category "restaurants" then "restaurant"
  else if String.eqb category "hotels" then "lodging"
  else if String.eqb category "attractions" then "tourist_attraction"
  else if String.eqb category "shopping" then "shopping_mall"
  else if String.eqb category "cafes" then "cafe"
  else "establishment".

(** The body of [places.forEach(place => {...})] of [searchByCategory]. *)
Definition addUniqueResult (placeType : string) (st : Acc)
    (place : GeocodingResult) : Acc :=
  if isNew st place then
    if (0 <? length (types place))%nat
       && negb (existsb (isCorrectType false placeType) (types place))
    then st
    else add st place
  else st.

Definition addUniqueResults (placeType : string) (st : Acc)
    (places : list GeocodingResult) : Acc :=
  fold_left (addUniqueResult placeType) places st.

(** [try { addUniqueResults(await p) } catch { warn }], then the rest. *)
Definition attempt (placeType : string) (p : Promise (list GeocodingResult))
    (st : Acc) (rest : Acc -> Promise (list GeocodingResult))
    : Promise (list GeocodingResult) :=
  match p with
  | Pending => Pending
  | Fulfilled places => rest (addUniqueResults placeType st places)
  | Rejected _ => rest st
  end.

(** [searchByCategory(category, location?)] *)
Definition searchByCategory (env : Env) (category : string)
    (location : option LatLng) : Promise (list GeocodingResult) :=
  let placeType := placeTypeOf category in
  attempt placeType
    (textSearch env category location (Some 50000%R) (Some placeType))
    Accumulator.empty (fun st1 =>
  let nearby (rest : Acc -> Promise (list GeocodingResult)) :=
    match location with
    | Some l =>
        attempt placeType (nearbySearch env l 50000%R (Some placeType)) st1 rest
    | None => rest st1
    end in
  nearby (fun st2 =>
  Fulfilled (slice0 (allResults st2) DistanceSearch.maxSearchResults))).

(** [getNearbyPlaces(latitude, longitude, radius = 1000, category?)] *)
Definition getNearbyPlaces (env : Env) (latitude longitude : R)
    (radius : option R) (category : option string)
    : Promise (list GeocodingResult) :=
  if negb (google_loaded env) then Fulfilled []
  else
    let placeType :=
      match category with
      | Some c => if truthy c then TextSearch.placeTypeOf (Some c) else None
      | None => None
      end in
    match nearbySearch env {| lat := latitude; lng := longitude |}
            (default 1000%R radius) placeType with
    | Pending => Pending
    | Fulfilled nearbyResults =>
        Fulfilled (slice0 nearbyResults DistanceSearch.maxSearchResults)
    | Rejected _ => Fulfilled []
    end.

End CategorySearch.

(** ** [searchLocationsExtended] *)

Module ExtendedSearch.
Import Geo Js ModernPlacesAPI Classifier Accumulator.
Local Open Scope string_scope.

(** [if (category) { switch (category) {...} }] *)
Definition placeTypeOf (category : option string) : option string :=
  match category with
  | Some c => if truthy c then TextSearch.placeTypeOf (Some c) else None
  | None => None
  end.

(** The query variations of a category, the query itself first. *)
Definition queryVariations (query : string) (category : option string)
    : list string :=
  match category with
  | Some c =>
      if String.eqb c "restaurants" then
        [query; query ++ " restaurant"; query ++ " food"; query ++ " dining"]
      else if String.eqb c "hotels" then
        [query; query ++ " hotel"; query ++ " lodging";
         query ++ " accommodation"]
      else if String.eqb c "attractions" then
        [query; query ++ " attraction"; query ++ " tourist";
         query ++ " museum"]
      else if String.eqb c "shopping" then
        [query; query ++ " shopping"; query ++ " store"; query ++ " mall"]
      else if String.eqb c "cafes" then
        [query; query ++ " cafe"; query ++ " coffee"; query ++ " coffee shop"]
      else [query]
  | None => [query]
  end.

(** [category ? [] : ['establishment', 'point_of_interest']] *)
Definition broaderCategories (category : option string) : list string :=
  if truthy (default "" category) then []
  else ["establishment"; "point_of_interest"].

(** The additional searches, in the order of [Promise.all]; a category
    search without a location returns at once and adds nothing. *)
Definition additionalSearches (env : Env) (query : string)
    (category : option string) (location : option LatLng)
    : list (Promise (list GeocodingResult)) :=
  (map (fun variation =>
          textSearch env variation location (Some 16093%R)
            (placeTypeOf category))
       (drop 1 (queryVariations query category)) ++
   map (fun cat =>
          match location with
          | Some l => nearbySearch env l 16093%R (Some cat)
          | None => Fulfilled []
          end)
       (broaderCategories category))%list.

(** One additional search: [try { addUniqueResults(await ...) } catch]. *)
Definition strategy (placeType : option string) (st : Acc)
    (p : Promise (list GeocodingResult)) : Acc :=
  match p with
  | Fulfilled places => TextSearch.addUniqueResults placeType st places
  | _ => st
  end.

(** [additionalResults] when every additional search has run;
    [seenPlaceIds] starts as the identifiers of the base results. *)
Definition additional (placeType : option string)
    (baseResults : list GeocodingResult)
    (arrivals : list (Promise (list GeocodingResult))) : Acc :=
  fold_left (strategy placeType) arrivals
    {| allResults := [];
       seenPlaceIds := list_to_set (place_id <$> baseResults) |}.

(** What follows [const baseResults = await searchLocations(...)]. *)
Definition extend (placeType : option string)
    (baseResults : list GeocodingResult)
    (arrivals : list (Promise (list GeocodingResult)))
    : Promise (list GeocodingResult) :=
  if (100 <=? length baseResults)%nat then Fulfilled baseResults
  else if existsb isPending arrivals then Pending
  else
    Fulfilled
      (slice0 (baseResults ++
               allResults (additional placeType baseResults arrivals))%list
         DistanceSearch.maxSearchResults).

(** [searchLocationsExtended(query, category?, location?)] *)
Definition searchLocationsExtended (env : Env) (query : string)
    (category : option string) (location : option LatLng)
    : Promise (list GeocodingResult) :=
  match TextSearch.searchLocations env query category location None with
  | Pending => Pending
  | Fulfilled baseResults =>
      extend (placeTypeOf category) baseResults
        (completion env (additionalSearches env query category location))
  | Rejected _ =>
      TextSearch.searchLocations env query category location None
  end.

End ExtendedSearch.

(** ** Place details and photos *)

Module PlaceDetails.
Import Geo Js ModernPlacesAPI.
Local Open Scope string_scope.

(** One invocation of the callback of [service.getDetails]. *)
Record DetailsCallback : Type := {
  dc_result : option PlaceResult;
  dc_status : PlacesServiceStatus
}.

(** What the service does at each of its next calls of [getDetails], in the
    order of the calls: it calls back, or it never does ([None], and every
    call once the list is used up). *)
Definition Answers : Type := list (option DetailsCallback).

(** A computation that awaits answers of the service. *)
Definition Async (A : Type) : Type := Answers -> Promise A * Answers.

Definition resolve {A : Type} (a : A) : Async A :=
  fun s => (Fulfilled a, s).

Definition reject {A : Type} (reason : string) : Async A :=
  fun s => (Rejected reason, s).

(** [await m], then [k]. *)
Definition await {A B : Type} (m : Async A) (k : A -> Async B) : Async B :=
  fun s =>
    match m s with
    | (Fulfilled a, s') => k a s'
    | (Pending, s') => (Pending, s')
    | (Rejected reason, s') => (Rejected reason, s')
    end.

(** [try { m } catch (error) { h }] *)
Definition try_catch {A : Type} (m : Async A) (h : Async A) : Async A :=
  fun s =>
    match m s with
    | (Rejected _, s') => h s'
    | other => other
    end.

Notation "'let!' x ':=' m 'in' k" := (await m (fun x => k))
  (at level 10, x name, m at level 100, k at level 200).

(** [service.getDetails(request, callback)], as a promise of the arguments
    of the callback. *)
Definition getDetails : Async DetailsCallback :=
  fun s =>
    match s with
    | Some cb :: s' => (Fulfilled cb, s')
    | None :: s' => (Pending, s')
    | [] => (Pending, [])
    end.

Definition photoCount (place : GeocodingResult) : nat :=
  length (default [] (photos place)).

(** [{ ...place, photos }] *)
Definition withPhotos (place : GeocodingResult) (ph : list string)
    : GeocodingResult :=
  {| place_id := place_id place;
     formatted_address := formatted_address place;
     geometry := geometry place;
     name := name place;
     types := types place;
     rating := rating place;
     user_ratings_total := user_ratings_total place;
     photos := Some ph |}.

(** [getPlaceDetails(placeId)] *)
Definition getPlaceDetails (loaded : bool) (placeId : string)
    : Async (option GeocodingResult) :=
  if negb loaded then reject "Google Maps API not loaded"
  else
    let! cb := getDetails in
    resolve
      match dc_status cb, dc_result cb with
      | OK, Some result => Some (convertPlace result)
      | _, _ => None
      end.

(** [getPlaceWithMultiplePhotos(placeId)] *)
Definition getPlaceWithMultiplePhotos (loaded : bool) (placeId : string)
    : Async (option GeocodingResult) :=
  try_catch
    (let! placeDetails := getPlaceDetails loaded placeId in
     match placeDetails with
     | None => resolve None
     | Some details =>
         if (1 <? photoCount details)%nat then resolve (Some details)
         else if (photoCount details =? 1)%nat then
           let! cb := getDetails in
           resolve
             (Some
                match dc_status cb, dc_result cb with
                | OK, Some result =>
                    match pr_photos result with
                    | Some ph => withPhotos details (take 10 ph)
                    | None => details
                    end
                | _, _ => details
                end)
         else resolve (Some details)
     end)
    (resolve None).

(** The loop of [enhanceResultsWithPhotos]. *)
Fixpoint enhanceFrom (loaded : bool) (results : list GeocodingResult)
    (enhancedResults : list GeocodingResult)
    : Async (list GeocodingResult) :=
  match results with
  | [] => resolve enhancedResults
  | result :: rest =>
      let! enhancedResults' :=
        try_catch
          (if (0 <? photoCount result)%nat then
             (let! enhancedPlace :=
                getPlaceWithMultiplePhotos loaded (place_id result) in
              resolve (enhancedResults ++ [default result enhancedPlace])%list)
           else resolve (enhancedResults ++ [result])%list)
          (resolve (enhancedResults ++ [result])%list) in
      enhanceFrom loaded rest enhancedResults'
  end.

(** [enhanceResultsWithPhotos(results)] *)
Definition enhanceResultsWithPhotos (loaded : bool)
    (results : list GeocodingResult) : Async (list GeocodingResult) :=
  enhanceFrom loaded results [].

(** [getDetailedPlaceInfo(placeId)] *)
Definition getDetailedPlaceInfo (loaded : bool) (placeId : string)
    : Async (option GeocodingResult) :=
  try_catch
    (let! detailedPlace := getPlaceDetails loaded placeId in
     match detailedPlace with
     | Some details =>
         if (0 <? photoCount details)%nat then
           let! placeWithMultiplePhotos := getPlaceWithMultiplePhotos loaded placeId in
           resolve
             (Some
                match placeWithMultiplePhotos with
                | Some enhanced =>
                    match photos enhanced with
                    | Some ph => withPhotos details (take 10 ph)
                    | None => details
                    end
                | None => details
                end)
         else resolve (Some details)
     | None => resolve None
     end)
    (resolve None).

(** The first answer of the service is a place. *)
Definition firstAnswer (answers : Answers) (first : PlaceResult) : Prop :=
  exists cb rest,
    answers = Some cb :: rest /\
    dc_status cb = OK /\ dc_result cb = Some first.

(** The record is the conversion of the place, possibly with another photo
    list of at most ten photos. *)
Definition detailsOf (first : PlaceResult) (r : GeocodingResult) : Prop :=
  r = convertPlace first \/
  exists ph, (length ph <= 10)%nat /\ r = withPhotos (convertPlace first) ph.

(** The number of places that have a photo. *)
Definition withPhoto (results : list GeocodingResult) : nat :=
  length (filter (fun r => (0 < photoCount r)%nat) results).

End PlaceDetails.

(** ** [getAutocompleteSuggestions] *)

Module Autocomplete.
Import Geo Js ModernPlacesAPI.
Local Open Scope string_scope.

(** The arguments of the callback of [getPlacePredictions]: the
    descriptions of the predictions and the status. *)
Record PredictionsCallback : Type := {
  pc_predictions : option (list (option string));
  pc_status : PlacesServiceStatus
}.

(** The loop over [predictions.slice(0, 5)]. *)
Fixpoint collect (env : Env) (descriptions : list (option string))
    (results : list GeocodingResult) : Promise (list GeocodingResult) :=
  match descriptions with
  | [] => Fulfilled results
  | description :: rest =>
      match findPlaceFromQuery env (default "" description) None None with
      | Pending => Pending
      | Fulfilled findResults =>
          collect env rest
            match findResults with
            | first :: _ => (results ++ [first])%list
            | [] => results
            end
      | Rejected _ => collect env rest results
      end
  end.

(** [getAutocompleteSuggestions(input)]; [predictions] is what the
    autocomplete service calls back with, if it does. *)
Definition getAutocompleteSuggestions (env : Env)
    (predictions : string -> option PredictionsCallback) (input : string)
    : Promise (list GeocodingResult) :=
  if negb (google_loaded env) then Fulfilled []
  else
    match predictions input with
    | None => Pending
    | Some cb =>
        match pc_status cb, pc_predictions cb with
        | OK, Some descriptions => collect env (take 5 descriptions) []
        | _, _ => Fulfilled []
        end
    end.

End Autocomplete.

(** ** The search bar: recent searches *)

Module SearchBar.
Local Open Scope string_scope.

(** [[searchTerm, ...recentSearches.filter(s => s !== searchTerm)]
     .slice(0, 10)] *)
Definition saveToRecentSearches (recentSearches : list string)
    (searchTerm : string) : list string :=
  take 10 (searchTerm :: filter (fun s => s <> searchTerm) recentSearches).

End SearchBar.

(** ** Sample data of the scenarios *)

Module Samples.
Import Geo Js ModernPlacesAPI.
Local Open Scope string_scope.

(** A place as the adapter delivers it. *)
Definition place (i : string) (la lo : R) (tags : list string)
    (stars : option R) : GeocodingResult :=
  {| place_id := i;
     formatted_address := "1 Main Street";
     geometry := {| lat := la; lng := lo |};
     name := "Place";
     types := tags;
     rating := stars;
     user_ratings_total := None;
     photos := Some [] |}.

(** Times Square. *)
Definition center : LatLng := {| lat := 40.7580; lng := -73.9855 |}.

(** The viewport of the bounds scenario. *)
Definition viewport : Bounds :=
  {| ne := {| lat := 40.78; lng := -73.95 |};
     sw := {| lat := 40.70; lng := -74.02 |} |}.

(** A place of the service with an identifier and tags only. *)
Definition tagged (i : string) (tags : list string) : PlaceResult :=
  {| pr_place_id := Some i;
     pr_name := None;
     pr_formatted_address := None;
     pr_location := None;
     pr_rating := None;
     pr_user_ratings_total := None;
     pr_types := Some tags;
     pr_photos := None |}.

(** A service that answers every request with one callback. *)
Definition answering (loaded : bool) (cb : Callback) : Env :=
  {| google_loaded := loaded;
     service := fun _ => [cb];
     completion := fun _ l => l |}.

Definition zeroResults : Callback :=
  {| cb_results := Some []; cb_status := ZERO_RESULTS; cb_pagination := None |}.

(** One page with a hotel and a restaurant. *)
Definition hotelAndSushi : Callback :=
  {| cb_results :=
       Some [tagged "h1" ["lodging"]; tagged "r1" ["restaurant"; "food"]];
     cb_status := OK;
     cb_pagination := Some false |}.

(** A record that has neither a name nor an address. *)
Definition nameless : GeocodingResult :=
  {| place_id := "abc123";
     formatted_address := "";
     geometry := {| lat := 40.75; lng := -73.98 |};
     name := "";
     types := ["restaurant"];
     rating := None;
     user_ratings_total := None;
     photos := None |}.

Definition idle : App.State :=
  {| App.searchResults := []; App.markers := [];
     App.error := None; App.isLoading := false |}.

End Samples.

(** ** Sample data of the further properties *)

Module MoreSamples.
Import Geo Js ModernPlacesAPI PlaceDetails Samples.
Local Open Scope string_scope.

(** A place of the service with photos. *)
Definition pictured (i : string) (urls : list string) : PlaceResult :=
  {| pr_place_id := Some i;
     pr_name := Some "Museum";
     pr_formatted_address := Some "5th Avenue";
     pr_location := Some center;
     pr_rating := None;
     pr_user_ratings_total := None;
     pr_types := Some ["museum"];
     pr_photos := Some urls |}.

(** The service calls back with the place. *)
Definition found (place : PlaceResult) : option DetailsCallback :=
  Some {| dc_result := Some place; dc_status := OK |}.

Definition twelve : list string :=
  ["u1"; "u2"; "u3"; "u4"; "u5"; "u6"; "u7"; "u8"; "u9"; "u10"; "u11"; "u12"].

End MoreSamples.

(** * Properties *)

(** ** Geo math *)

Module GeoFacts.
Import Geo.
Local Open Scope R_scope.





















Lemma Rgeb_true (x y : R) : Rgeb x y = true <-> y <= x.
Proof. unfold Rgeb. destruct (Rge_dec x y); split; (lra || discriminate || auto). Qed.

Lemma Rleb_true (x y : R) : Rleb x y = true <-> x <= y.
Proof. unfold Rleb. destruct (Rle_dec x y); split; (lra || discriminate || auto). Qed.

Lemma isWithinBounds_Some (b : Bounds) (la lo : R) :
  isWithinBounds (Some b) la lo = true <->
  (lat (sw b) <= la <= lat (ne b)) /\ (lng (sw b) <= lo <= lng (ne b)).
Proof.
  unfold isWithinBounds.
  rewrite !andb_true_iff, !Rgeb_true, !Rleb_true. tauto.
Qed.

End GeoFacts.

(** ** Lists, the stable sort and the slice *)

Module ListFacts.
Import Js.

Section Lists.
Context {A : Type}.
Implicit Types l k : list A.




Lemma slice0_sublist l (n : Z) : slice0 l n `sublist_of` l.
Proof. unfold slice0. destruct (n <? 0)%Z; apply sublist_take. Qed.

Lemma slice0_prefix l (n : Z) : slice0 l n `prefix_of` l.
Proof. unfold slice0. destruct (n <? 0)%Z; apply prefix_take. Qed.

Lemma NoDup_fmap_eq {B : Type} (f : A -> B) l x y :
  NoDup (f <$> l) -> x ∈ l -> y ∈ l -> f x = f y -> x = y.
Proof.
  induction l as [| z l IH]; intros Hnd Hx Hy Hf.
  - now apply elem_of_nil in Hx.
  - rewrite fmap_cons in Hnd. apply NoDup_cons in Hnd as [Hz Hnd].
    apply elem_of_cons in Hx as [-> | Hx]; apply elem_of_cons in Hy as [-> | Hy].
    + reflexivity.
    + exfalso. apply Hz. rewrite Hf. now apply list_elem_of_fmap_2.
    + exfalso. apply Hz. rewrite <- Hf. now apply list_elem_of_fmap_2.
    + now apply IH.
Qed.
End Lists.

(** The sort by a numeric key, largest first: the comparator is
    [key b - key a]. *)
Section SortByKey.
Context {A : Type} (key : A -> R).
Implicit Types l : list A.

Let cmp (a b : A) : R := (key b - key a)%R.
Let desc (a b : A) : Prop := (key a >= key b)%R.

Lemma sort_insert_Permutation x l : sort_insert cmp x l ≡ₚ x :: l.
Proof.
  induction l as [| y l IH]; simpl; [reflexivity |].
  destruct (Rlt_dec 0 (cmp x y)); [| reflexivity].
  rewrite IH. apply Permutation_swap.
Qed.

Lemma sort_Permutation l : sort cmp l ≡ₚ l.
Proof.
  induction l as [| x l IH]; simpl; [reflexivity |].
  now rewrite sort_insert_Permutation, IH.
Qed.

Lemma sort_insert_sorted x l :
  StronglySorted desc l -> StronglySorted desc (sort_insert cmp x l).
Proof.
  induction l as [| y l IH]; intros Hl; simpl.
  - repeat constructor.
  - apply StronglySorted_inv in Hl as [Hl Hy].
    destruct (Rlt_dec 0 (cmp x y)) as [Hlt | Hge]; unfold cmp in Hlt || unfold cmp in Hge.
    + constructor; [auto |].
      rewrite sort_insert_Permutation. constructor; [unfold desc; lra | exact Hy].
    + constructor; [now constructor |].
      constructor; [unfold desc; lra |].
      eapply Forall_impl; [exact Hy |]. unfold desc. intros z Hz. lra.
Qed.

Lemma sort_sorted l : StronglySorted desc (sort cmp l).
Proof.
  induction l as [| x l IH]; simpl; [constructor | now apply sort_insert_sorted].
Qed.

(** Stability: the places of one score keep their order. *)
Lemma sort_insert_filter (s : R) x l :
  filter (fun a => key a = s) (sort_insert cmp x l)
  = filter (fun a => key a = s) (x :: l).
Proof.
  induction l as [| y l IH]; simpl; [reflexivity |].
  destruct (Rlt_dec 0 (cmp x y)) as [Hlt | Hge]; [| reflexivity].
  unfold cmp in Hlt.
  rewrite (filter_cons _ y), IH, !(filter_cons _ x), (filter_cons _ y).
  destruct (decide (key y = s)), (decide (key x = s)); try reflexivity.
  lra.
Qed.

Lemma sort_filter (s : R) l :
  filter (fun a => key a = s) (sort cmp l) = filter (fun a => key a = s) l.
Proof.
  induction l as [| x l IH]; simpl; [reflexivity |].
  now rewrite sort_insert_filter, !filter_cons, IH.
Qed.

(** Two lists in descending order of the key that hold the same places
    of every key, in the same order, are one list: the result of a stable
    sort does not depend on the algorithm. *)
Lemma sorted_stable_unique l1 l2 :
  StronglySorted desc l1 -> StronglySorted desc l2 ->
  (forall s : R, filter (fun a => key a = s) l1
                 = filter (fun a => key a = s) l2) ->
  l1 = l2.
Proof.
  revert l2. induction l1 as [| x t1 IH]; intros l2 H1 H2 Hf.
  - destruct l2 as [| y t2]; [reflexivity |].
    specialize (Hf (key y)). rewrite filter_nil, filter_cons_True in Hf by auto.
    discriminate.
  - apply StronglySorted_inv in H1 as [H1 Hx].
    destruct l2 as [| y t2].
    { specialize (Hf (key x)).
      rewrite filter_nil, filter_cons_True in Hf by auto. discriminate. }
    apply StronglySorted_inv in H2 as [H2 Hy].
    rewrite Forall_forall in Hx, Hy.
    assert (Hkey : key y = key x).
    { apply Rle_antisym.
      - pose proof (Hf (key y)) as E.
        rewrite (filter_cons_True _ y) in E by auto.
        assert (Hin : y ∈ filter (fun a => key a = key y) (x :: t1))
          by (rewrite E; apply list_elem_of_here).
        apply list_elem_of_filter in Hin as [_ Hin].
        apply elem_of_cons in Hin as [-> | Hin]; [lra |].
        specialize (Hx y Hin). unfold desc in Hx. lra.
      - pose proof (Hf (key x)) as E.
        rewrite (filter_cons_True _ x) in E by auto.
        assert (Hin : x ∈ filter (fun a => key a = key x) (y :: t2))
          by (rewrite <- E; apply list_elem_of_here).
        apply list_elem_of_filter in Hin as [_ Hin].
        apply elem_of_cons in Hin as [-> | Hin]; [lra |].
        specialize (Hy x Hin). unfold desc in Hy. lra. }
    assert (Hxy : x = y).
    { pose proof (Hf (key x)) as E.
      rewrite !filter_cons_True in E by auto. now injection E. }
    subst y. f_equal. apply IH; [exact H1 | exact H2 |].
    intros s. specialize (Hf s). rewrite !(filter_cons _ x) in Hf.
    destruct (decide (key x = s)); [now injection Hf | exact Hf].
Qed.

Lemma sort_unique l l' :
  StronglySorted desc l' ->
  (forall s : R, filter (fun a => key a = s) l'
                 = filter (fun a => key a = s) l) ->
  l' = sort cmp l.
Proof.
  intros Hs Hf. apply sorted_stable_unique; [exact Hs | apply sort_sorted |].
  intros s. now rewrite sort_filter.
Qed.
End SortByKey.

End ListFacts.

(** ** The accumulator *)

Module AccFacts.
Import Geo Js ModernPlacesAPI Classifier Accumulator.
Local Open Scope string_scope.

Lemma truthy_true (s : string) : truthy s = true <-> s <> "".
Proof.
  unfold truthy. rewrite negb_true_iff.
  destruct (String.eqb_spec s ""); split; congruence.
Qed.

Lemma truthy_empty : truthy "" = false.
Proof. reflexivity. Qed.

Lemma or_else_truthy (s d : string) : s <> "" -> or_else s d = s.
Proof. intros H. unfold or_else. apply truthy_true in H. now rewrite H. Qed.

Lemma isNew_true (st : Acc) (p : GeocodingResult) :
  isNew st p = true <-> place_id p <> "" /\ place_id p ∉ seenPlaceIds st.
Proof.
  unfold isNew.
  rewrite andb_true_iff, truthy_true, negb_true_iff, bool_decide_eq_false.
  reflexivity.
Qed.

Lemma empty_consistent : consistent Accumulator.empty.
Proof.
  repeat split; simpl; try (constructor; fail); intros H.
  - now apply not_elem_of_empty in H.
  - now apply elem_of_nil in H.
Qed.

Lemma add_consistent (st : Acc) (p : GeocodingResult) :
  consistent st -> isNew st p = true -> consistent (add st p).
Proof.
  intros (Hseen & Hnd & Hne) [Hid Hnew]%isNew_true.
  unfold consistent, add; simpl. rewrite fmap_app; simpl.
  repeat split.
  - rewrite elem_of_union, elem_of_singleton, elem_of_app, list_elem_of_singleton.
    rewrite Hseen. tauto.
  - rewrite elem_of_union, elem_of_singleton, elem_of_app, list_elem_of_singleton.
    rewrite Hseen. tauto.
  - apply NoDup_app. repeat split; [exact Hnd | | apply NoDup_singleton].
    intros i Hi ->%list_elem_of_singleton. apply Hnew. now apply Hseen.
  - apply Forall_app. split; [exact Hne |]. now repeat constructor.
Qed.

(** A place appended to the accumulator that came out of the adapter is
    appended as it is. *)
Lemma pushed_convertPlace (place : PlaceResult) :
  pushed (convertPlace place) = convertPlace place.
Proof.
  unfold pushed, convertPlace; simpl.
  assert (Hd : forall (o : option string) (d : string),
             d <> "" -> or_else (opt_or_else o d) d = opt_or_else o d).
  { intros o d Hd. unfold opt_or_else, or_else.
    destruct o as [v |].
    - destruct (truthy v) eqn:Hv; [now rewrite Hv |].
      apply truthy_true in Hd. now rewrite Hd.
    - apply truthy_true in Hd. now rewrite Hd. }
  rewrite !Hd by discriminate. reflexivity.
Qed.

Lemma pushed_id (place : GeocodingResult) :
  name place <> "" -> formatted_address place <> "" ->
  is_Some (photos place) -> pushed place = place.
Proof.
  intros Hn Ha [ph Hph]. destruct place as [i a [la lo] n t r u p]; simpl in *.
  unfold pushed; simpl. rewrite !or_else_truthy by assumption.
  subst p. reflexivity.
Qed.

End AccFacts.

(** ** The distance search *)

Module DistanceFacts.
Import Geo Js ModernPlacesAPI Classifier Accumulator DistanceSearch.
Import GeoFacts ListFacts AccFacts.
Local Open Scope string_scope.

Section Facts.
Variables (category : string) (location : LatLng) (bounds : option Bounds).

Abbreviation step := (addUniqueResult category bounds).
Abbreviation run := (addUniqueResults category bounds).
Abbreviation ok := (accepted category bounds).

Lemma addUniqueResult_cases (st : Acc) (p : GeocodingResult) :
  (step st p = st /\ (isNew st p = false \/ ok p = false)) \/
  (step st p = add st p /\ isNew st p = true /\ ok p = true).
Proof.
  unfold addUniqueResult, accepted.
  destruct (isNew st p); [| left; auto].
  destruct (passesTypeFilter true (placeTypeOf category) (types p)); simpl;
    [| left; auto].
  destruct (isWithinBounds bounds (lat (geometry p)) (lng (geometry p)));
    simpl; [right | left]; auto.
Qed.

Lemma addUniqueResult_add (st : Acc) (p : GeocodingResult) :
  isNew st p = true -> ok p = true -> step st p = add st p.
Proof.
  intros Hn Ha. destruct (addUniqueResult_cases st p) as [[_ [H | H]] | [H _]];
    congruence.
Qed.

Lemma addUniqueResult_skip (st : Acc) (p : GeocodingResult) :
  isNew st p = false \/ ok p = false -> step st p = st.
Proof.
  intros H. destruct (addUniqueResult_cases st p) as [[E _] | (_ & Hn & Ha)];
    [exact E |]. destruct H; congruence.
Qed.

Lemma run_nil (st : Acc) : run st [] = st.
Proof. reflexivity. Qed.

Lemma run_cons (st : Acc) p l : run st (p :: l) = run (step st p) l.
Proof. reflexivity. Qed.

Lemma run_app (st : Acc) l1 l2 : run st (l1 ++ l2) = run (run st l1) l2.
Proof. apply fold_left_app. Qed.

Lemma merged_arrived (arrivals : list (Promise (list GeocodingResult))) (st : Acc) :
  fold_left (strategy category bounds) arrivals st = run st (arrived arrivals).
Proof.
  revert st. induction arrivals as [| p arrivals IH]; intros st; [reflexivity |].
  simpl. rewrite run_app, IH. now destruct p.
Qed.

Lemma run_consistent (st : Acc) l : consistent st -> consistent (run st l).
Proof.
  revert st. induction l as [| p l IH]; intros st Hst; [exact Hst |].
  rewrite run_cons. apply IH.
  destruct (addUniqueResult_cases st p) as [[-> _] | (-> & Hn & _)];
    [exact Hst | now apply add_consistent].
Qed.

Lemma run_prefix (st : Acc) l : allResults st `prefix_of` allResults (run st l).
Proof.
  revert st. induction l as [| p l IH]; intros st; [reflexivity |].
  rewrite run_cons. etrans; [| apply IH].
  destruct (addUniqueResult_cases st p) as [[-> _] | (-> & _)];
    [reflexivity | now apply prefix_app_r].
Qed.

(** What holds of every place that is appended holds of every result. *)
Lemma run_Forall (Q : GeocodingResult -> Prop) (st : Acc) l :
  (forall p, place_id p <> "" -> ok p = true -> Q (pushed p)) ->
  Forall Q (allResults st) -> Forall Q (allResults (run st l)).
Proof.
  intros HQ. revert st. induction l as [| p l IH]; intros st Hst; [exact Hst |].
  rewrite run_cons. apply IH.
  destruct (addUniqueResult_cases st p) as [[-> _] | (-> & Hn & Ha)];
    [exact Hst |].
  simpl. apply Forall_app. split; [exact Hst |].
  constructor; [| constructor]. apply HQ; [| exact Ha].
  now apply isNew_true in Hn.
Qed.

(** An identifier enters the set of seen identifiers with an accepted
    place only. *)
Lemma run_seen (st : Acc) l (i : string) :
  i ∈ seenPlaceIds (run st l) ->
  i ∈ seenPlaceIds st \/ exists x, x ∈ l /\ place_id x = i /\ ok x = true.
Proof.
  revert st. induction l as [| p l IH]; intros st Hi; [now left |].
  rewrite run_cons in Hi. apply IH in Hi as [Hi | (x & Hx & Hid & Hok)].
  - destruct (addUniqueResult_cases st p) as [[E _] | (E & _ & Ha)];
      rewrite E in Hi; [now left |].
    simpl in Hi. apply elem_of_union in Hi as [->%elem_of_singleton | Hi];
      [right | now left].
    exists p. split; [apply list_elem_of_here | auto].
  - right. exists x. split; [now apply list_elem_of_further | auto].
Qed.

(** The first accepted place of an identifier is the one that is kept. *)
Lemma run_first_accepted (st : Acc) l1 p l2 :
  place_id p <> "" -> place_id p ∉ seenPlaceIds st ->
  (forall x, x ∈ l1 -> place_id x = place_id p -> ok x = false) ->
  ok p = true ->
  pushed p ∈ allResults (run st (l1 ++ p :: l2)).
Proof.
  intros Hid Hnew Hbefore Hok.
  rewrite run_app, run_cons.
  assert (Hn : isNew (run st l1) p = true).
  { apply isNew_true. split; [exact Hid |]. intros Hin.
    apply run_seen in Hin as [Hin | (x & Hx & Hxid & Hxok)]; [auto |].
    rewrite (Hbefore x Hx Hxid) in Hxok. discriminate. }
  rewrite (addUniqueResult_add _ _ Hn Hok).
  eapply elem_of_prefix; [| apply run_prefix].
  simpl. apply elem_of_app. right. apply list_elem_of_here.
Qed.

End Facts.
End DistanceFacts.

(** ** Ranking, bounds and deduplication of the distance search *)

Module DistanceClaims.
Import Geo Js ModernPlacesAPI Classifier Accumulator DistanceSearch.
Import GeoFacts ListFacts AccFacts DistanceFacts.
Local Open Scope string_scope.

Lemma aggregate_Fulfilled category location bounds arrivals maxResults out :
  aggregate category location bounds arrivals maxResults = Fulfilled out ->
  out = slice0 (sort (byScore location)
                  (allResults (merged category bounds arrivals))) maxResults.
Proof.
  unfold aggregate. destruct (existsb isPending arrivals); [discriminate |].
  now intros [= <-].
Qed.

Lemma merged_run category bounds arrivals :
  merged category bounds arrivals
  = addUniqueResults category bounds Accumulator.empty (arrived arrivals).
Proof. apply merged_arrived. Qed.

Lemma merged_consistent category bounds arrivals :
  consistent (merged category bounds arrivals).
Proof. rewrite merged_run. apply run_consistent, empty_consistent. Qed.

Lemma merged_within category bounds arrivals :
  Forall (fun r => isWithinBounds bounds (lat (geometry r)) (lng (geometry r)) = true)
    (allResults (merged category bounds arrivals)).
Proof.
  rewrite merged_run. apply run_Forall; [| constructor].
  intros p _ [_ Hb]%andb_true_iff. exact Hb.
Qed.

Lemma aggregate_sublist category location bounds arrivals maxResults out :
  aggregate category location bounds arrivals maxResults = Fulfilled out ->
  exists sorted, out `sublist_of` sorted /\
    sorted ≡ₚ allResults (merged category bounds arrivals).
Proof.
  intros ->%aggregate_Fulfilled. eexists. split; [apply slice0_sublist |].
  apply (sort_Permutation (calculateScore location)).
Qed.

Lemma aggregate_elem_of category location bounds arrivals maxResults out r :
  aggregate category location bounds arrivals maxResults = Fulfilled out ->
  r ∈ out -> r ∈ allResults (merged category bounds arrivals).
Proof.
  intros (sorted & Hsub & Hperm)%aggregate_sublist Hr.
  rewrite <- Hperm. eapply elem_of_sublist; eauto.
Qed.

End DistanceClaims.

(** ** The claims on the geo math *)

Module GeoClaims.
Import Geo Js ModernPlacesAPI Classifier Accumulator DistanceSearch.
Import GeoFacts ListFacts AccFacts DistanceFacts DistanceClaims Samples.
Local Open Scope R_scope.

(** Decides the comparisons of reals that are left in a goal. *)
Ltac Rdecide :=
  repeat match goal with
  | |- context [Rge_dec ?a ?b] => destruct (Rge_dec a b); try lra
  | |- context [Rle_dec ?a ?b] => destruct (Rle_dec a b); try lra
  | |- context [Rlt_dec ?a ?b] => destruct (Rlt_dec a b); try lra
  | |- context [Rgt_dec ?a ?b] => destruct (Rgt_dec a b); try lra
  end.







(** C4: the bounds test holds exactly when the latitude lies between those
    of the south-west and north-east corners and the longitude between
    their longitudes; without bounds it always holds; and a candidate
    outside the bounds is not added to the accumulator and is absent from
    the result of the aggregation, whatever its score. *)
Theorem isWithinBounds_filter (category : string) (location : LatLng)
    (b : Bounds) :
  (forall la lo : R,
     isWithinBounds (Some b) la lo = true <->
     (lat (sw b) <= la <= lat (ne b)) /\ (lng (sw b) <= lo <= lng (ne b))) /\
  (forall la lo : R, isWithinBounds None la lo = true) /\
  (forall (st : Acc) (p : GeocodingResult),
     isWithinBounds (Some b) (lat (geometry p)) (lng (geometry p)) = false ->
     addUniqueResult category (Some b) st p = st) /\
  (forall arrivals maxResults out (p : GeocodingResult),
     aggregate category location (Some b) arrivals maxResults = Fulfilled out ->
     isWithinBounds (Some b) (lat (geometry p)) (lng (geometry p)) = false ->
     forall r, r ∈ out -> geometry r <> geometry p).
Proof.
  split; [apply isWithinBounds_Some |]. split; [reflexivity |]. split.
  - intros st p Hout. apply addUniqueResult_skip. right.
    unfold accepted. rewrite Hout. apply andb_false_r.
  - intros arrivals maxResults out p Hagg Hout r Hr Hgeo.
    eapply aggregate_elem_of in Hr; [| exact Hagg].
    pose proof (merged_within category (Some b) arrivals) as Hall.
    rewrite Forall_forall in Hall. specialize (Hall r Hr).
    rewrite Hgeo in Hall. congruence.
Qed.

Lemma isWithinBounds_filter_witness :
  isWithinBounds (Some viewport) 40.90 (-73.90) = false /\
  geometry (place "in" 40.75 (-73.98) [] None)
  <> geometry (place "out" 40.90 (-73.90) [] None).
Proof.
  assert (Hout : isWithinBounds (Some viewport) 40.90 (-73.90) = false).
  { unfold isWithinBounds, Rgeb, Rleb; simpl. Rdecide; reflexivity. }
  assert (Hin : isWithinBounds (Some viewport) 40.75 (-73.98) = true).
  { unfold isWithinBounds, Rgeb, Rleb; simpl. Rdecide; reflexivity. }
  split; [exact Hout |].
  destruct (isWithinBounds_filter "restaurant" center viewport)
    as (_ & _ & _ & Hfinal).
  apply (Hfinal [Fulfilled [place "out" 40.90 (-73.90) [] None;
                            place "in" 40.75 (-73.98) [] None]]
           80%Z [place "in" 40.75 (-73.98) [] None]);
    [| exact Hout | apply list_elem_of_here].
  unfold aggregate.
  replace (existsb isPending _) with false by reflexivity.
  rewrite merged_run.
  change (arrived _) with [place "out" 40.90 (-73.90) [] None;
                           place "in" 40.75 (-73.98) [] None].
  rewrite run_cons, addUniqueResult_skip
    by (right; apply andb_false_iff; right; exact Hout).
  rewrite run_cons, addUniqueResult_add;
    [reflexivity | reflexivity |].
  apply andb_true_iff. split; [reflexivity | exact Hin].
Defined.

End GeoClaims.

(** ** The claims on the merge and the ranking *)

Module MergeClaims.
Import Geo Js ModernPlacesAPI Classifier Accumulator DistanceSearch.
Import GeoFacts ListFacts AccFacts DistanceFacts DistanceClaims Samples.
Local Open Scope string_scope.

(** C2, as amended: the merged results hold at most one record per
    identifier; of the arriving records that carry one identifier, the first
    one that passes the type and bounds filters is the one kept, as the copy
    the accumulator makes of it (the record itself when it has a name, an
    address and a photo list, as every record of the adapter has), and no
    other record of that identifier is in the results. *)
Theorem first_accepted_arrival_is_kept (category : string)
    (bounds : option Bounds)
    (arrivals : list (Promise (list GeocodingResult))) :
  let results := allResults (merged category bounds arrivals) in
  NoDup (place_id <$> results) /\
  (forall location maxResults out,
     aggregate category location bounds arrivals maxResults = Fulfilled out ->
     NoDup (place_id <$> out)) /\
  (forall l1 p l2,
     arrived arrivals = (l1 ++ p :: l2)%list ->
     place_id p <> "" ->
     (forall x, x ∈ l1 -> place_id x = place_id p ->
                accepted category bounds x = false) ->
     accepted category bounds p = true ->
     pushed p ∈ results /\
     (forall r, r ∈ results -> place_id r = place_id p -> r = pushed p) /\
     (name p <> "" -> formatted_address p <> "" -> is_Some (photos p) ->
      pushed p = p)).
Proof.
  cbv zeta. pose proof (merged_consistent category bounds arrivals)
    as (_ & Hnd & _).
  split; [exact Hnd |]. split.
  { intros location maxResults out (sorted & Hsub & Hperm)%aggregate_sublist.
    eapply sublist_NoDup; [| apply fmap_sublist, Hsub].
    now rewrite Hperm. }
  intros l1 p l2 Harr Hid Hbefore Hok.
  assert (Hin : pushed p ∈ allResults (merged category bounds arrivals)).
  { rewrite merged_run, Harr.
    apply run_first_accepted; [exact Hid | apply not_elem_of_empty | exact Hbefore | exact Hok]. }
  split; [exact Hin |]. split; [| apply pushed_id].
  intros r Hr Hrid.
  eapply (NoDup_fmap_eq place_id); [exact Hnd | exact Hr | exact Hin | exact Hrid].
Qed.

Lemma first_accepted_arrival_is_kept_witness :
  place "abc123" 40.75 (-73.98) ["restaurant"] (Some 4.5%R)
  ∈ allResults (merged "restaurant" None
      [Fulfilled [place "abc123" 40.75 (-73.98) ["restaurant"] (Some 4.5%R)];
       Fulfilled [place "abc123" 40.75 (-73.98) ["restaurant"] (Some 3%R)]]).
Proof.
  destruct (first_accepted_arrival_is_kept "restaurant" None
           [Fulfilled [place "abc123" 40.75 (-73.98) ["restaurant"] (Some 4.5%R)];
            Fulfilled [place "abc123" 40.75 (-73.98) ["restaurant"] (Some 3%R)]])
    as (_ & _ & Hfirst).
  apply (Hfirst [] (place "abc123" 40.75 (-73.98) ["restaurant"] (Some 4.5%R))
           [place "abc123" 40.75 (-73.98) ["restaurant"] (Some 3%R)]).
  - reflexivity.
  - discriminate.
  - intros x Hx. now apply elem_of_nil in Hx.
  - reflexivity.
Defined.

(** C2 fails as stated: under the category "restaurant" a first arrival
    tagged as lodging is filtered out and does not mark its identifier as
    seen, so the later arrival of the same identifier is the one kept. *)
Lemma later_duplicate_is_kept :
  allResults (merged "restaurant" None
    [Fulfilled [place "abc123" 40.75 (-73.98) ["lodging"] (Some 4.5%R)];
     Fulfilled [place "abc123" 40.75 (-73.98) ["restaurant"] (Some 3%R)]])
  = [place "abc123" 40.75 (-73.98) ["restaurant"] (Some 3%R)] /\
  place "abc123" 40.75 (-73.98) ["lodging"] (Some 4.5%R)
  <> place "abc123" 40.75 (-73.98) ["restaurant"] (Some 3%R).
Proof. split; [reflexivity | discriminate]. Qed.

(** C7, as amended: a record without an identifier is never compared with
    or added to the set of seen identifiers; it is skipped, the accumulator
    is left as it was, and no record of the merged results lacks an
    identifier. *)
Theorem record_without_identifier_is_skipped (category : string)
    (bounds : option Bounds) :
  (forall (st : Acc) (p : GeocodingResult),
     place_id p = "" -> addUniqueResult category bounds st p = st) /\
  (forall arrivals r,
     r ∈ allResults (merged category bounds arrivals) -> place_id r <> "").
Proof.
  split.
  - intros st p Hid. apply addUniqueResult_skip. left.
    unfold isNew. now rewrite Hid.
  - intros arrivals r Hr.
    pose proof (merged_consistent category bounds arrivals) as (_ & _ & Hne).
    rewrite Forall_forall in Hne. now apply Hne.
Qed.

Lemma record_without_identifier_is_skipped_witness :
  addUniqueResult "restaurant" None Accumulator.empty
    (place "" 40.75 (-73.98) ["restaurant"] None) = Accumulator.empty /\
  "abc123" <> "".
Proof.
  destruct (record_without_identifier_is_skipped "restaurant" None)
    as [Hskip Hne].
  split.
  - apply Hskip. reflexivity.
  - apply (Hne [Fulfilled [place "abc123" 40.75 (-73.98) ["restaurant"] None]]
               (place "abc123" 40.75 (-73.98) ["restaurant"] None)).
    apply list_elem_of_here.
Defined.

(** C7 fails as stated: an arriving record without an identifier that
    passes the type and bounds filters is not in the merged results. *)
Lemma record_without_identifier_not_included :
  accepted "restaurant" None (place "" 40.75 (-73.98) ["restaurant"] None)
  = true /\
  allResults (merged "restaurant" None
    [Fulfilled [place "" 40.75 (-73.98) ["restaurant"] None]]) = [].
Proof. split; reflexivity. Qed.



End MergeClaims.

(** ** The adapter *)

Module AdapterClaims.
Import Geo Js ModernPlacesAPI Classifier Accumulator.
Import AccFacts Samples.
Local Open Scope string_scope.

Lemma performSearch_not_Rejected allResults calls reason :
  performSearch allResults calls <> Rejected reason.
Proof.
  revert allResults. induction calls as [| cb rest IH]; intros allResults;
    simpl; [discriminate |].
  destruct (cb_status cb); try discriminate.
  destruct (cb_results cb) as [results |]; [| discriminate].
  destruct (_ && _); [apply IH | discriminate].
Qed.

Lemma performSearch_non_ok allResults cb rest :
  cb_status cb <> OK ->
  performSearch allResults (cb :: rest) = Fulfilled allResults.
Proof. intros H. simpl. now destruct (cb_status cb). Qed.

Lemma aggregate_not_Rejected category location bounds arrivals maxResults reason :
  DistanceSearch.aggregate category location bounds arrivals maxResults
  <> Rejected reason.
Proof.
  unfold DistanceSearch.aggregate. now destruct (existsb isPending arrivals).
Qed.

Lemma attempt_not_Rejected placeType p st rest :
  (forall st' reason, rest st' <> Rejected reason) ->
  forall reason, TextSearch.attempt placeType p st rest <> Rejected reason.
Proof. intros Hrest reason. destruct p; simpl; [discriminate | apply Hrest ..]. Qed.

Lemma searchLocations_loaded env query category location bounds reason :
  google_loaded env = true ->
  TextSearch.searchLocations env query category location bounds
  <> Rejected reason.
Proof.
  intros Hl. unfold TextSearch.searchLocations. rewrite Hl; simpl.
  set (pt := TextSearch.placeTypeOf _).
  apply attempt_not_Rejected. intros st1 r1.
  destruct location as [l |].
  - destruct pt as [t |].
    + destruct (truthy t).
      * apply attempt_not_Rejected. intros st2 r2.
        apply attempt_not_Rejected. discriminate.
      * apply attempt_not_Rejected. discriminate.
    + apply attempt_not_Rejected. discriminate.
  - discriminate.
Qed.

Lemma textSearch_Rejected env query location radius type reason :
  textSearch env query location radius type = Rejected reason <->
  google_loaded env = false /\ reason = "Google Maps API not loaded".
Proof.
  unfold textSearch. destruct (google_loaded env); simpl; split.
  - intros H. now apply performSearch_not_Rejected in H.
  - intros [? _]. discriminate.
  - now intros [= <-].
  - now intros [_ ->].
Qed.

Lemma nearbySearch_Rejected env location radius type reason :
  nearbySearch env location radius type = Rejected reason <->
  google_loaded env = false /\ reason = "Google Maps API not loaded".
Proof.
  unfold nearbySearch. destruct (google_loaded env); simpl; split.
  - intros H. now apply performSearch_not_Rejected in H.
  - intros [? _]. discriminate.
  - now intros [= <-].
  - now intros [_ ->].
Qed.

Lemma findPlaceFromQuery_Rejected env query location radius reason :
  findPlaceFromQuery env query location radius = Rejected reason <->
  google_loaded env = false /\ reason = "Google Maps API not loaded".
Proof.
  unfold findPlaceFromQuery. destruct (google_loaded env); simpl; split.
  - destruct (service env _) as [| cb ?]; [discriminate |].
    destruct (cb_status cb); try discriminate.
    destruct (cb_results cb); discriminate.
  - intros [? _]. discriminate.
  - now intros [= <-].
  - now intros [_ ->].
Qed.

Lemma searchLocationsByDistanceAndPopularity_Rejected category location bounds
    env maxResults reason :
  DistanceSearch.searchLocationsByDistanceAndPopularity
    category location bounds env maxResults = Rejected reason <->
  google_loaded env = false /\ reason = "Google Maps API not available".
Proof.
  unfold DistanceSearch.searchLocationsByDistanceAndPopularity.
  destruct (google_loaded env); simpl; split.
  - intros H. now apply aggregate_not_Rejected in H.
  - intros [? _]. discriminate.
  - now intros [= <-].
  - now intros [_ ->].
Qed.

Lemma searchLocations_Rejected env query category location bounds reason :
  TextSearch.searchLocations env query category location bounds
  = Rejected reason <->
  google_loaded env = false /\ reason = "Google Maps API not available".
Proof.
  destruct (google_loaded env) eqn:Hl; split.
  - intros H. now apply searchLocations_loaded in H.
  - intros [? _]. discriminate.
  - unfold TextSearch.searchLocations. rewrite Hl; simpl. now intros [= <-].
  - intros [_ ->]. unfold TextSearch.searchLocations. now rewrite Hl.
Qed.

(** A second page that fails leaves the first page as the result. *)
Example failing_second_page :
  textSearch
    {| google_loaded := true;
       service := fun _ =>
         [ {| cb_results := Some [tagged "r1" ["restaurant"]];
              cb_status := OK; cb_pagination := Some true |};
           {| cb_results := None;
              cb_status := OVER_QUERY_LIMIT; cb_pagination := None |} ];
       completion := fun _ l => l |}
    "pizza" None None None
  = Fulfilled [convertPlace (tagged "r1" ["restaurant"])].
Proof. reflexivity. Qed.

(** C6: a callback with a status other than OK fulfils the promise of the
    search with what was accumulated so far, the empty list when it is the
    first callback; the promise of a search of the adapter, of
    [searchLocationsByDistanceAndPopularity] and of [searchLocations] is
    rejected exactly when the SDK is not loaded. *)
Theorem rejected_only_when_sdk_not_loaded (env : Env) :
  (forall allResults cb rest,
     cb_status cb <> OK ->
     performSearch allResults (cb :: rest) = Fulfilled allResults) /\
  (forall query location radius type cb rest,
     google_loaded env = true ->
     service env (textSearchRequest query location radius type) = cb :: rest ->
     cb_status cb <> OK ->
     textSearch env query location radius type = Fulfilled []) /\
  (forall location radius type cb rest,
     google_loaded env = true ->
     service env (PlaceSearchRequest location radius (type_of_request type))
     = cb :: rest ->
     cb_status cb <> OK ->
     nearbySearch env location radius type = Fulfilled []) /\
  (forall query location radius cb rest,
     google_loaded env = true ->
     service env (findPlaceRequest query location radius) = cb :: rest ->
     cb_status cb <> OK ->
     findPlaceFromQuery env query location radius = Fulfilled []) /\
  (forall query location radius type reason,
     textSearch env query location radius type = Rejected reason <->
     google_loaded env = false /\ reason = "Google Maps API not loaded") /\
  (forall location radius type reason,
     nearbySearch env location radius type = Rejected reason <->
     google_loaded env = false /\ reason = "Google Maps API not loaded") /\
  (forall query location radius reason,
     findPlaceFromQuery env query location radius = Rejected reason <->
     google_loaded env = false /\ reason = "Google Maps API not loaded") /\
  (forall category location bounds maxResults reason,
     DistanceSearch.searchLocationsByDistanceAndPopularity
       category location bounds env maxResults = Rejected reason <->
     google_loaded env = false /\ reason = "Google Maps API not available") /\
  (forall query category location bounds reason,
     TextSearch.searchLocations env query category location bounds
     = Rejected reason <->
     google_loaded env = false /\ reason = "Google Maps API not available").
Proof.
  split; [apply performSearch_non_ok |].
  split.
  { intros query location radius type cb rest Hl Hs Hcb.
    unfold textSearch. rewrite Hl, Hs. now apply performSearch_non_ok. }
  split.
  { intros location radius type cb rest Hl Hs Hcb.
    unfold nearbySearch. rewrite Hl, Hs. now apply performSearch_non_ok. }
  split.
  { intros query location radius cb rest Hl Hs Hcb.
    unfold findPlaceFromQuery. rewrite Hl, Hs. simpl.
    now destruct (cb_status cb). }
  split; [intros; apply textSearch_Rejected |].
  split; [intros; apply nearbySearch_Rejected |].
  split; [intros; apply findPlaceFromQuery_Rejected |].
  split; [intros; apply searchLocationsByDistanceAndPopularity_Rejected |].
  intros; apply searchLocations_Rejected.
Qed.

Lemma rejected_only_when_sdk_not_loaded_witness :
  textSearch (answering true zeroResults) "pizza" None None None = Fulfilled []
  /\ (google_loaded (answering false zeroResults) = false /\
      "Google Maps API not loaded" = "Google Maps API not loaded").
Proof.
  split.
  - destruct (rejected_only_when_sdk_not_loaded (answering true zeroResults))
      as (_ & Hfirst & _).
    apply (Hfirst "pizza" None None None zeroResults []);
      [reflexivity | reflexivity | discriminate].
  - destruct (rejected_only_when_sdk_not_loaded (answering false zeroResults))
      as (_ & _ & _ & _ & Hrej & _).
    apply (Hrej "pizza" None None None). reflexivity.
Defined.

End AdapterClaims.

(** ** The classifier and the text search *)

Module ClassifierClaims.
Import Geo Js ModernPlacesAPI Classifier Accumulator TextSearch.
Import ListFacts AccFacts Samples.
Local Open Scope string_scope.

Section Facts.
Variable placeType : option string.

Lemma addUniqueResult_text_cases (st : Acc) (p : GeocodingResult) :
(addUniqueResult placeType st p = st) \/
(addUniqueResult placeType st p = add st p /\
 passesTypeFilter false placeType (types p) = true).
Proof.
unfold addUniqueResult. destruct (isNew st p); [| now left].
destruct (passesTypeFilter false placeType (types p)); simpl; auto.
Qed.

Lemma addUniqueResults_Forall (Q : GeocodingResult -> Prop) (st : Acc) l :
(forall p, passesTypeFilter false placeType (types p) = true -> Q (pushed p)) ->
Forall Q (allResults st) ->
Forall Q (allResults (addUniqueResults placeType st l)).
Proof.
intros HQ. revert st. induction l as [| p l IH]; intros st Hst; [exact Hst |].
simpl. apply IH.
destruct (addUniqueResult_text_cases st p) as [-> | [-> Hp]]; [exact Hst |].
simpl. apply Forall_app. split; [exact Hst |]. repeat constructor. now apply HQ.
Qed.

Lemma attempt_Forall (Q : GeocodingResult -> Prop) p st rest out :
(forall q, passesTypeFilter false placeType (types q) = true -> Q (pushed q)) ->
(forall st', Forall Q (allResults st') -> rest st' = Fulfilled out -> Forall Q out) ->
Forall Q (allResults st) ->
attempt placeType p st rest = Fulfilled out -> Forall Q out.
Proof.
intros HQ Hrest Hst. destruct p as [| places | reason]; simpl;
  [discriminate | |]; apply Hrest; [| exact Hst].
now apply addUniqueResults_Forall.
Qed.
End Facts.

Lemma searchLocations_Forall (Q : GeocodingResult -> Prop) env query category
    location bounds out :
  (forall q, passesTypeFilter false
               (placeTypeOf (detectedCategory query category)) (types q) = true ->
             Q (pushed q)) ->
  searchLocations env query category location bounds = Fulfilled out ->
  Forall Q out.
Proof.
  intros HQ. unfold searchLocations.
  destruct (google_loaded env); simpl; [| discriminate].
  set (pt := placeTypeOf (detectedCategory query category)) in *.
  clearbody pt.
  assert (Hlast : forall st', Forall Q (allResults st') ->
            Fulfilled (slice0 (allResults st') DistanceSearch.maxSearchResults)
            = Fulfilled out -> Forall Q out).
  { intros st' Hst' [= <-]. rewrite Forall_forall in *. intros r Hr.
    apply Hst'. eapply elem_of_sublist; [exact Hr | apply slice0_sublist]. }
  apply attempt_Forall; [exact HQ | | constructor].
  intros st1 Hst1.
  destruct location as [l |].
  - assert (Hfind : forall st2, Forall Q (allResults st2) ->
              attempt pt (findPlaceFromQuery env query (Some l)
                            (Some (searchRadius (Some l) bounds))) st2
                (fun st3 => Fulfilled (slice0 (allResults st3)
                                         DistanceSearch.maxSearchResults))
              = Fulfilled out -> Forall Q out).
    { intros st2 Hst2. now apply attempt_Forall. }
    destruct pt as [t |]; [destruct (truthy t) |].
    + apply attempt_Forall; [exact HQ | | exact Hst1].
      intros st2 Hst2. now apply Hfind.
    + now apply Hfind.
    + now apply Hfind.
  - now apply Hlast.
Qed.

Lemma includes_restaurant_first (query : string) :
  includes (toLowerCase query) "restaurant" = true ->
  detectCategoryFromQuery query = Some "restaurants".
Proof. intros H. unfold detectCategoryFromQuery; cbv zeta. now rewrite H. Qed.

(** C8: for the query "sushi restaurant" and no category the classifier
    gives the restaurant category, whose test comes first; under it a
    candidate tagged ["lodging"] only is left out and a new candidate tagged
    ["restaurant", "food"] is added; no result of the search is tagged
    ["lodging"] only. *)
Theorem sushi_restaurant_is_a_restaurant_search :
  detectedCategory "sushi restaurant" None = Some "restaurants" /\
  placeTypeOf (detectedCategory "sushi restaurant" None) = Some "restaurant" /\
  (forall query : string,
     includes (toLowerCase query) "restaurant" = true ->
     detectCategoryFromQuery query = Some "restaurants") /\
  (forall (st : Acc) (p : GeocodingResult),
     types p = ["lodging"] ->
     addUniqueResult (Some "restaurant") st p = st) /\
  (forall (st : Acc) (p : GeocodingResult),
     types p = ["restaurant"; "food"] -> isNew st p = true ->
     addUniqueResult (Some "restaurant") st p = add st p) /\
  (forall env location bounds out r,
     searchLocations env "sushi restaurant" None location bounds
     = Fulfilled out ->
     r ∈ out -> types r <> ["lodging"]).
Proof.
  split; [reflexivity |]. split; [reflexivity |].
  split; [apply includes_restaurant_first |].
  split; [| split].
  - intros st p Ht. unfold addUniqueResult.
    destruct (isNew st p); [| reflexivity]. now rewrite Ht.
  - intros st p Ht Hn. unfold addUniqueResult. now rewrite Hn, Ht.
  - intros env location bounds out r Hs Hr.
    revert r Hr. apply Forall_forall.
    eapply searchLocations_Forall; [| exact Hs].
    intros q Hq Ht. simpl in Ht.
    change (placeTypeOf (detectedCategory "sushi restaurant" None))
      with (Some "restaurant") in Hq.
    rewrite Ht in Hq. discriminate.
Qed.

Lemma sushi_restaurant_is_a_restaurant_search_witness :
  detectCategoryFromQuery "Hotel Restaurant" = Some "restaurants" /\
  addUniqueResult (Some "restaurant") Accumulator.empty
    (convertPlace (tagged "h1" ["lodging"])) = Accumulator.empty /\
  addUniqueResult (Some "restaurant") Accumulator.empty
    (convertPlace (tagged "r1" ["restaurant"; "food"]))
  = add Accumulator.empty (convertPlace (tagged "r1" ["restaurant"; "food"])) /\
  types (convertPlace (tagged "r1" ["restaurant"; "food"])) <> ["lodging"].
Proof.
  destruct sushi_restaurant_is_a_restaurant_search
    as (_ & _ & Hfirst & Hout & Hin & Hall).
  split; [apply Hfirst; reflexivity |].
  split; [apply Hout; reflexivity |].
  split; [apply Hin; reflexivity |].
  apply (Hall (answering true hotelAndSushi) None None
              [convertPlace (tagged "r1" ["restaurant"; "food"])]).
  - reflexivity.
  - apply list_elem_of_here.
Defined.

End ClassifierClaims.

(** ** The presentation mapper *)

Module MapperClaims.
Import Geo Js ModernPlacesAPI Mapper.
Import AccFacts Samples.
Local Open Scope string_scope.

Lemma opt_or_else_nonempty (s : option string) (d : string) :
  d <> "" -> opt_or_else s d <> "".
Proof.
  intros Hd. unfold opt_or_else, or_else. destruct s as [v |]; [| exact Hd].
  destruct (truthy v) eqn:Hv; [now apply truthy_true | exact Hd].
Qed.

(** C10, as amended: the conversion to a display location is total; a
    missing name becomes the literal "Unknown Location" and a name that is
    present is kept; the address is copied as it is, a missing address
    stays missing.  The literal "No address available" comes from the
    adapter: the address of a converted place of the service is never
    missing, and it is that literal when the service gave none. *)
Theorem convertToLocation_defaults (result : GeocodingResult) :
  (name result = "" -> loc_name (convertToLocation result) = "Unknown Location") /\
  (name result <> "" -> loc_name (convertToLocation result) = name result) /\
  address (convertToLocation result) = formatted_address result /\
  (forall place : PlaceResult,
     address (convertToLocation (convertPlace place)) <> "" /\
     (pr_formatted_address place = None \/ pr_formatted_address place = Some "" ->
      address (convertToLocation (convertPlace place)) = "No address available")).
Proof.
  split; [| split; [| split; [reflexivity |]]].
  - intros H. simpl. now rewrite H.
  - intros H. simpl. now apply or_else_truthy.
  - intros place. simpl. split.
    + now apply opt_or_else_nonempty.
    + now intros [-> | ->].
Qed.

Lemma convertToLocation_defaults_witness :
  loc_name (convertToLocation nameless) = "Unknown Location" /\
  loc_name (convertToLocation (place "abc123" 40.75 (-73.98) [] None)) = "Place" /\
  address (convertToLocation (convertPlace (tagged "r1" ["restaurant"])))
  = "No address available".
Proof.
  split; [| split].
  - apply (convertToLocation_defaults nameless). reflexivity.
  - apply (convertToLocation_defaults (place "abc123" 40.75 (-73.98) [] None)).
    discriminate.
  - destruct (convertToLocation_defaults nameless) as (_ & _ & _ & Hplace).
    apply (Hplace (tagged "r1" ["restaurant"])). now left.
Defined.

(** C10 fails as stated: the display location of a record without an
    address has no address, not the literal. *)
Lemma convertToLocation_keeps_missing_address :
  formatted_address nameless = "" /\
  address (convertToLocation nameless) = "" /\
  address (convertToLocation nameless) <> "No address available".
Proof. repeat split. discriminate. Qed.

End MapperClaims.

(** ** The map component *)

Module AppClaims.
Import Geo Js ModernPlacesAPI Classifier Mapper App.
Import AccFacts Samples.
Local Open Scope string_scope.







(** A query that is not blank does reach the service. *)
Example sushi_query_reaches_the_service :
  snd (performSearch (answering true hotelAndSushi) "sushi"
         (Some {| getCenter := Some center; getBounds := Some viewport |})
         idle)
  = [textSearchRequest "sushi" (Some center) (Some 50000%R) None] /\
  length (searchResults
    (fst (performSearch (answering true hotelAndSushi) "sushi"
            (Some {| getCenter := Some center; getBounds := Some viewport |})
            idle))) = 2%nat.
Proof. split; reflexivity. Qed.

End AppClaims.

(** * Further properties *)

(** ** Distances, scores and radii *)

Module GeoExtras.
Import Geo Js ModernPlacesAPI DistanceSearch.
Import GeoFacts Samples.
Local Open Scope R_scope.








(** The radius of [searchLocations] is 10 miles (16093 m) when the bounds
    or the location are missing, and between 0 and 10 miles otherwise. *)
Theorem searchRadius_capped (location : option LatLng)
    (bounds : option Bounds) :
  0 <= TextSearch.searchRadius location bounds <= 16093 /\
  (location = None \/ bounds = None ->
   TextSearch.searchRadius location bounds = 16093).
Proof.
  unfold TextSearch.searchRadius.
  destruct bounds as [b |], location as [c |]; cbv zeta;
    try (split; [lra | reflexivity]).
  split; [| intros [H | H]; discriminate].
  set (corner := fun la lo : R =>
         sqrt ((la - lat c) * (la - lat c) + (lo - lng c) * (lo - lng c))
         * 111000).
  assert (Hc : forall la lo, 0 <= corner la lo).
  { intros la lo. unfold corner.
    pose proof (sqrt_pos ((la - lat c) * (la - lat c)
                          + (lo - lng c) * (lo - lng c))). lra. }
  change (0 <= Rmin (Rmax (Rmax (Rmax (corner (lat (ne b)) (lng (ne b)))
                                   (corner (lat (sw b)) (lng (sw b))))
                             (corner (lat (ne b)) (lng (sw b))))
                       (corner (lat (sw b)) (lng (ne b)))) 16093 <= 16093).
  pose proof (Hc (lat (sw b)) (lng (ne b))) as H1.
  pose proof (Rmax_r (Rmax (Rmax (corner (lat (ne b)) (lng (ne b)))
                              (corner (lat (sw b)) (lng (sw b))))
                        (corner (lat (ne b)) (lng (sw b))))
                (corner (lat (sw b)) (lng (ne b)))) as H2.
  split; [apply Rmin_glb; lra | apply Rmin_r].
Qed.

Lemma searchRadius_capped_witness :
  TextSearch.searchRadius None (Some viewport) = 16093.
Proof.
  apply (searchRadius_capped None (Some viewport)). now left.
Defined.

End GeoExtras.

(** ** The paged searches of the adapter *)

Module AdapterExtras.
Import Geo Js ModernPlacesAPI Accumulator Pages.
Import AccFacts Samples.
Local Open Scope string_scope.

Lemma convertPlace_complete (place : PlaceResult) :
  complete (convertPlace place).
Proof.
  unfold complete, convertPlace; simpl. repeat split.
  - apply MapperClaims.opt_or_else_nonempty. discriminate.
  - apply MapperClaims.opt_or_else_nonempty. discriminate.
  - eauto.
Qed.

Lemma pageResults_complete (cb : Callback) :
  Forall complete (pageResults cb).
Proof.
  unfold pageResults. destruct (cb_status cb); try constructor.
  destruct (cb_results cb) as [results |]; [| constructor].
  apply Forall_forall. intros r (place & -> & _)%list_elem_of_fmap.
  apply convertPlace_complete.
Qed.

Lemma pageResults_ok (cb : Callback) (results : list PlaceResult) :
  cb_status cb = OK -> cb_results cb = Some results ->
  pageResults cb = map convertPlace results.
Proof. intros Hs Hr. unfold pageResults. now rewrite Hs, Hr. Qed.

(** The result of a paged search is what it had, followed by the pages of
    the first callbacks, in their order. *)
Lemma performSearch_pages allResults calls out :
  performSearch allResults calls = Fulfilled out ->
  exists k, (k <= length calls)%nat /\
    out = (allResults ++ flat_map pageResults (take k calls))%list.
Proof.
  revert allResults. induction calls as [| cb rest IH]; intros allResults;
    simpl; [discriminate |].
  assert (Hstop : Fulfilled allResults = Fulfilled out ->
            exists k, (k <= S (length rest))%nat /\
              out = (allResults ++ flat_map pageResults (take k (cb :: rest)))%list).
  { intros [= <-]. exists 0%nat. split; [lia |]. simpl. now rewrite app_nil_r. }
  destruct (cb_status cb) eqn:Hs; try exact Hstop.
  destruct (cb_results cb) as [results |] eqn:Hr; [| exact Hstop].
  destruct (_ && _).
  - intros (k & Hk & ->)%IH. exists (S k). split; [lia |].
    simpl. rewrite (pageResults_ok cb results Hs Hr). now rewrite <- app_assoc.
  - intros [= <-]. exists 1%nat. split; [lia |]. simpl.
    rewrite (pageResults_ok cb results Hs Hr). now rewrite app_nil_r.
Qed.

Lemma performSearch_length (n : nat) allResults calls out :
  Forall (fun cb => (pageSize cb <= n)%nat) calls ->
  (length allResults < 60)%nat ->
  performSearch allResults calls = Fulfilled out ->
  (length out < 60 + n)%nat.
Proof.
  intros Hn. revert allResults.
  induction Hn as [| cb rest Hcb _ IH]; intros allResults Hlen; simpl;
    [discriminate |].
  unfold pageSize, pageResults in Hcb.
  destruct (cb_status cb); try (intros [= <-]; lia).
  destruct (cb_results cb) as [results |]; [| intros [= <-]; lia].
  destruct (hasNextPage _ && _) eqn:Hnext.
  - apply IH. apply andb_true_iff in Hnext as [_ Hlt].
    now apply Nat.ltb_lt in Hlt.
  - intros [= <-]. rewrite length_app. lia.
Qed.

Lemma performSearch_settles allResults calls :
  Exists (fun cb => lastPage cb = true) calls ->
  performSearch allResults calls <> Pending.
Proof.
  intros Hex. revert allResults.
  induction Hex as [cb rest Hcb | cb rest _ IH]; intros allResults; simpl.
  - unfold lastPage in Hcb.
    destruct (cb_status cb); try discriminate.
    destruct (cb_results cb); [| discriminate].
    apply negb_true_iff in Hcb. rewrite Hcb. discriminate.
  - destruct (cb_status cb); try discriminate.
    destruct (cb_results cb); [| discriminate].
    destruct (_ && _); [apply IH | discriminate].
Qed.

Lemma complete_pushed l :
  Forall complete l -> Forall (fun r => complete r /\ pushed r = r) l.
Proof.
  intros Hl. eapply Forall_impl; [exact Hl |]. intros r Hr.
  split; [exact Hr |]. destruct Hr as (Hn & Ha & Hp). now apply pushed_id.
Qed.

Lemma performSearch_complete calls out :
  performSearch [] calls = Fulfilled out -> Forall complete out.
Proof.
  intros (k & _ & ->)%performSearch_pages. simpl.
  induction (take k calls) as [| cb l IH]; simpl; [constructor |].
  apply Forall_app. split; [apply pageResults_complete | exact IH].
Qed.

Lemma textSearch_complete env query location radius type out :
  textSearch env query location radius type = Fulfilled out ->
  Forall complete out.
Proof.
  unfold textSearch. destruct (google_loaded env); simpl; [| discriminate].
  apply performSearch_complete.
Qed.

Lemma nearbySearch_complete env location radius type out :
  nearbySearch env location radius type = Fulfilled out ->
  Forall complete out.
Proof.
  unfold nearbySearch. destruct (google_loaded env); simpl; [| discriminate].
  apply performSearch_complete.
Qed.

Lemma findPlaceFromQuery_complete env query location radius out :
  findPlaceFromQuery env query location radius = Fulfilled out ->
  Forall complete out.
Proof.
  unfold findPlaceFromQuery.
  destruct (google_loaded env); simpl; [| discriminate].
  destruct (service env _) as [| cb rest]; [discriminate |].
  pose proof (pageResults_complete cb) as Hp. unfold pageResults in Hp.
  destruct (cb_status cb); try (intros [= <-]; constructor).
  destruct (cb_results cb); intros [= <-]; [exact Hp | constructor].
Qed.

(** Every record of a fulfilled search of the adapter has a name, an
    address and a photo list; the accumulators copy such a record as it
    is. *)
Theorem adapter_results_are_complete (env : Env) :
  (forall query location radius type out,
     textSearch env query location radius type = Fulfilled out ->
     Forall (fun r => complete r /\ pushed r = r) out) /\
  (forall location radius type out,
     nearbySearch env location radius type = Fulfilled out ->
     Forall (fun r => complete r /\ pushed r = r) out) /\
  (forall query location radius out,
     findPlaceFromQuery env query location radius = Fulfilled out ->
     Forall (fun r => complete r /\ pushed r = r) out).
Proof.
  split; [| split]; intros; apply complete_pushed.
  - eapply textSearch_complete; eassumption.
  - eapply nearbySearch_complete; eassumption.
  - eapply findPlaceFromQuery_complete; eassumption.
Qed.

Lemma adapter_results_are_complete_witness :
  Forall (fun r => complete r /\ pushed r = r)
    [convertPlace (tagged "h1" ["lodging"]);
     convertPlace (tagged "r1" ["restaurant"; "food"])].
Proof.
  destruct (adapter_results_are_complete (answering true hotelAndSushi))
    as (Htext & _).
  apply (Htext "sushi" None None None). reflexivity.
Defined.

(** A fulfilled text or nearby search returns the pages of the first
    callbacks of the service, in their order and whole; when no page has
    more than [n] places it returns fewer than [60 + n] places. *)
Theorem paged_search_returns_whole_pages (env : Env) :
  (forall query location radius type out,
     textSearch env query location radius type = Fulfilled out ->
     wholePages (service env (textSearchRequest query location radius type))
       out) /\
  (forall location radius type out,
     nearbySearch env location radius type = Fulfilled out ->
     wholePages
       (service env (PlaceSearchRequest location radius (type_of_request type)))
       out).
Proof.
  assert (Hp : forall calls out,
            performSearch [] calls = Fulfilled out -> wholePages calls out).
  { intros calls out Hp. split.
    - now apply performSearch_pages in Hp.
    - intros n Hn. eapply performSearch_length; [exact Hn | | exact Hp].
      simpl; lia. }
  split.
  - intros query location radius type out. unfold textSearch.
    destruct (google_loaded env); simpl; [apply Hp | discriminate].
  - intros location radius type out. unfold nearbySearch.
    destruct (google_loaded env); simpl; [apply Hp | discriminate].
Qed.

Lemma paged_search_returns_whole_pages_witness :
  wholePages
    (service (answering true hotelAndSushi)
       (textSearchRequest "sushi" None None None))
    [convertPlace (tagged "h1" ["lodging"]);
     convertPlace (tagged "r1" ["restaurant"; "food"])].
Proof.
  apply (paged_search_returns_whole_pages (answering true hotelAndSushi)).
  reflexivity.
Defined.

(** A text or nearby search settles when the SDK is loaded and one
    callback of the service is a last page: a status other than OK, no
    results, or no next page. *)
Theorem paged_search_settles (env : Env) :
  google_loaded env = true ->
  (forall query location radius type,
     Exists (fun cb => lastPage cb = true)
       (service env (textSearchRequest query location radius type)) ->
     textSearch env query location radius type <> Pending) /\
  (forall location radius type,
     Exists (fun cb => lastPage cb = true)
       (service env (PlaceSearchRequest location radius (type_of_request type))) ->
     nearbySearch env location radius type <> Pending).
Proof.
  intros Hl. split.
  - intros query location radius type Hex. unfold textSearch.
    rewrite Hl; simpl. now apply performSearch_settles.
  - intros location radius type Hex. unfold nearbySearch.
    rewrite Hl; simpl. now apply performSearch_settles.
Qed.

Lemma paged_search_settles_witness :
  textSearch (answering true zeroResults) "sushi" None None None <> Pending.
Proof.
  destruct (paged_search_settles (answering true zeroResults)) as [Htext _];
    [reflexivity |].
  apply (Htext "sushi" None None None).
  apply Exists_cons_hd. reflexivity.
Defined.

End AdapterExtras.

(** ** Accumulators in general *)

Module StepFacts.
Import Geo Js ModernPlacesAPI Classifier Accumulator Seen Pages.
Import ListFacts AccFacts.
Local Open Scope string_scope.

Lemma fresh_consistent (st : Acc) : fresh ∅ st <-> consistent st.
Proof.
  unfold fresh, consistent. split; intros (Hs & Hnd & Hne).
  - split; [| split; [exact Hnd |]].
    + intros i. rewrite Hs. split; [| now right].
      intros [Hi | Hi]; [now apply not_elem_of_empty in Hi | exact Hi].
    + eapply Forall_impl; [exact Hne |]. now intros r [H _].
  - split; [| split; [exact Hnd |]].
    + intros i. rewrite Hs. split; [now right |].
      intros [Hi | Hi]; [now apply not_elem_of_empty in Hi | exact Hi].
    + eapply Forall_impl; [exact Hne |]. intros r H.
      split; [exact H | apply not_elem_of_empty].
Qed.

Lemma fresh_start (ids : list string) :
  fresh (list_to_set ids) {| allResults := []; seenPlaceIds := list_to_set ids |}.
Proof.
  split; [| split]; simpl; [| constructor | constructor].
  intros i. split; [now left |].
  intros [H | H]; [exact H | now apply elem_of_nil in H].
Qed.

Section Step.
Variables (keep : GeocodingResult -> bool)
          (step : Acc -> GeocodingResult -> Acc).
Hypothesis Hstep : filtered keep step.

Lemma step_cases (st : Acc) (p : GeocodingResult) :
  step st p = st \/
  (step st p = add st p /\ isNew st p = true /\ keep p = true).
Proof.
  rewrite Hstep. destruct (isNew st p), (keep p); simpl; auto.
Qed.

Lemma add_fresh (start : gset string) (st : Acc) (p : GeocodingResult) :
  fresh start st -> isNew st p = true -> fresh start (add st p).
Proof.
  intros (Hseen & Hnd & Hne) [Hid Hnew]%isNew_true.
  unfold fresh, add; simpl. rewrite fmap_app; simpl.
  assert (Hp : (place_id p ∉ start) /\ (place_id p ∉ place_id <$> allResults st)).
  { split; intros Hin; apply Hnew, Hseen; auto. }
  split; [| split].
  - intros i.
    rewrite elem_of_union, elem_of_singleton, elem_of_app, list_elem_of_singleton.
    rewrite Hseen. tauto.
  - apply NoDup_app. repeat split; [exact Hnd | | apply NoDup_singleton].
    intros i Hi ->%list_elem_of_singleton. now apply Hp.
  - apply Forall_app. split; [exact Hne |]. repeat constructor; tauto.
Qed.

Lemma fold_fresh (start : gset string) (st : Acc) l :
  fresh start st -> fresh start (fold_left step l st).
Proof.
  revert st. induction l as [| p l IH]; intros st Hst; [exact Hst |].
  simpl. apply IH.
  destruct (step_cases st p) as [-> | (-> & Hn & _)];
    [exact Hst | now apply add_fresh].
Qed.

Lemma fold_Forall (Q : GeocodingResult -> Prop) (st : Acc) l :
  (forall p, keep p = true -> Q (pushed p)) ->
  Forall Q (allResults st) -> Forall Q (allResults (fold_left step l st)).
Proof.
  intros HQ. revert st. induction l as [| p l IH]; intros st Hst; [exact Hst |].
  simpl. apply IH.
  destruct (step_cases st p) as [-> | (-> & _ & Hk)]; [exact Hst |].
  simpl. apply Forall_app. split; [exact Hst |]. repeat constructor. now apply HQ.
Qed.

Lemma fold_seen_mono (st : Acc) l (i : string) :
  i ∈ seenPlaceIds st -> i ∈ seenPlaceIds (fold_left step l st).
Proof.
  revert st. induction l as [| p l IH]; intros st Hi; [exact Hi |].
  simpl. apply IH.
  destruct (step_cases st p) as [-> | (-> & _)]; [exact Hi |].
  simpl. apply elem_of_union. now right.
Qed.

Lemma fold_kept_seen (st : Acc) l (x : GeocodingResult) :
  x ∈ l -> place_id x <> "" -> keep x = true ->
  place_id x ∈ seenPlaceIds (fold_left step l st).
Proof.
  revert st. induction l as [| p l IH]; intros st Hx Hid Hk.
  - now apply elem_of_nil in Hx.
  - simpl. apply elem_of_cons in Hx as [<- | Hx]; [| now apply IH].
    apply fold_seen_mono. rewrite Hstep, Hk, andb_true_r.
    destruct (isNew st x) eqn:Hn.
    + simpl. apply elem_of_union. left. now apply elem_of_singleton.
    + destruct (decide (place_id x ∈ seenPlaceIds st)) as [Hin | Hout];
        [exact Hin |].
      assert (isNew st x = true) by (apply isNew_true; auto). congruence.
Qed.

Lemma fold_seen (st : Acc) l (i : string) :
  i ∈ seenPlaceIds (fold_left step l st) ->
  i ∈ seenPlaceIds st \/
  (i <> "" /\ exists x, x ∈ l /\ place_id x = i /\ keep x = true).
Proof.
  revert st. induction l as [| p l IH]; intros st Hi; [now left |].
  simpl in Hi. apply IH in Hi as [Hi | (Hne & x & Hx & Hid & Hk)].
  - destruct (step_cases st p) as [E | (E & Hn & Hk)];
      rewrite E in Hi; [now left |].
    simpl in Hi. apply elem_of_union in Hi as [->%elem_of_singleton | Hi];
      [right | now left].
    apply isNew_true in Hn as [Hne _]. split; [exact Hne |].
    exists p. split; [apply list_elem_of_here | auto].
  - right. split; [exact Hne |].
    exists x. split; [now apply list_elem_of_further | auto].
Qed.

(** The identifiers of the results are those of the kept places that
    arrived, whatever the order of the arrivals. *)
Lemma fold_ids (l : list GeocodingResult) (i : string) :
  i ∈ place_id <$> allResults (fold_left step l Accumulator.empty) <->
  i <> "" /\ exists x, x ∈ l /\ place_id x = i /\ keep x = true.
Proof.
  pose proof (fold_fresh ∅ Accumulator.empty l
                (proj2 (fresh_consistent _) empty_consistent)) as (Hs & _ & _).
  split.
  - intros Hi. assert (Hin : i ∈ seenPlaceIds (fold_left step l Accumulator.empty))
      by (apply Hs; now right).
    apply fold_seen in Hin as [Hin | Hin]; [| exact Hin].
    now apply not_elem_of_empty in Hin.
  - intros (Hne & x & Hx & <- & Hk).
    pose proof (fold_kept_seen Accumulator.empty l x Hx Hne Hk) as Hin.
    apply Hs in Hin as [Hin | Hin]; [| exact Hin].
    now apply not_elem_of_empty in Hin.
Qed.
End Step.

Lemma distance_filtered category bounds :
  filtered (DistanceSearch.accepted category bounds)
    (DistanceSearch.addUniqueResult category bounds).
Proof.
  intros st p. unfold DistanceSearch.addUniqueResult, DistanceSearch.accepted.
  destruct (isNew st p); [| reflexivity].
  destruct (passesTypeFilter _ _ _); [| reflexivity].
  now destruct (isWithinBounds _ _ _).
Qed.

Lemma text_filtered placeType :
  filtered (fun p => passesTypeFilter false placeType (types p))
    (TextSearch.addUniqueResult placeType).
Proof.
  intros st p. unfold TextSearch.addUniqueResult.
  destruct (isNew st p); [| reflexivity].
  now destruct (passesTypeFilter _ _ _).
Qed.

Lemma category_filtered placeType :
  filtered (fun p => negb ((0 <? length (types p))%nat
                           && negb (existsb (isCorrectType false placeType)
                                      (types p))))
    (CategorySearch.addUniqueResult placeType).
Proof.
  intros st p. unfold CategorySearch.addUniqueResult.
  destruct (isNew st p); [| reflexivity].
  now destruct (_ && _).
Qed.

Lemma pushed_place_id (p : GeocodingResult) : place_id (pushed p) = place_id p.
Proof. reflexivity. Qed.

Lemma pushed_complete (p : GeocodingResult) : complete (pushed p).
Proof.
  unfold complete, pushed; simpl. repeat split; [| | eauto].
  - unfold or_else. destruct (truthy (name p)) eqn:H;
      [now apply truthy_true | discriminate].
  - unfold or_else. destruct (truthy (formatted_address p)) eqn:H;
      [now apply truthy_true | discriminate].
Qed.

Lemma slice0_length {A : Type} (l : list A) (n : Z) :
  (0 <= n)%Z -> (length (slice0 l n) <= Z.to_nat n)%nat.
Proof.
  intros Hn. unfold slice0.
  destruct (n <? 0)%Z eqn:E; [apply Z.ltb_lt in E; lia |].
  rewrite length_take. lia.
Qed.

Lemma slice0_nonneg {A : Type} (l : list A) (n : Z) :
  (0 <= n)%Z -> slice0 l n = take (Z.to_nat n) l.
Proof.
  intros Hn. unfold slice0.
  destruct (n <? 0)%Z eqn:E; [apply Z.ltb_lt in E; lia | reflexivity].
Qed.

Lemma slice0_all {A : Type} (l : list A) (n : Z) :
  (Z.of_nat (length l) <= n)%Z -> slice0 l n = l.
Proof.
  intros Hn. unfold slice0.
  destruct (n <? 0)%Z eqn:E; [apply Z.ltb_lt in E; lia |].
  apply take_ge. lia.
Qed.

End StepFacts.

(** ** More on the distance search *)

Module DistanceExtras.
Import Geo Js ModernPlacesAPI Classifier Accumulator DistanceSearch Seen Pages.
Import ListFacts AccFacts DistanceFacts DistanceClaims StepFacts Samples.
Local Open Scope string_scope.

Lemma merged_fold category bounds arrivals :
  merged category bounds arrivals
  = fold_left (addUniqueResult category bounds) (arrived arrivals)
      Accumulator.empty.
Proof. apply merged_run. Qed.

Lemma arrived_Permutation (l1 l2 : list (Promise (list GeocodingResult))) :
  l1 ≡ₚ l2 -> arrived l1 ≡ₚ arrived l2.
Proof.
  induction 1 as [| p l1 l2 _ IH | p q l | l1 l2 l3 _ IH1 _ IH2]; simpl.
  - reflexivity.
  - now rewrite IH.
  - rewrite !app_assoc. f_equiv. apply Permutation_app_comm.
  - now rewrite IH1.
Qed.

(** An identifier is among the merged results exactly when it is not empty
    and some arriving place that carries it passes the type and bounds
    filters; so the identifiers of the merged results, and their number, do
    not depend on the order in which the strategies complete. *)
Theorem merged_identifiers_do_not_depend_on_order (category : string)
    (bounds : option Bounds)
    (arrivals : list (Promise (list GeocodingResult))) :
  (forall i : string,
     i ∈ place_id <$> allResults (merged category bounds arrivals) <->
     i <> "" /\
     exists p, p ∈ arrived arrivals /\ place_id p = i /\
               accepted category bounds p = true) /\
  (forall arrivals',
     arrivals ≡ₚ arrivals' ->
     place_id <$> allResults (merged category bounds arrivals)
     ≡ₚ place_id <$> allResults (merged category bounds arrivals')).
Proof.
  assert (Hids : forall a (i : string),
            i ∈ place_id <$> allResults (merged category bounds a) <->
            i <> "" /\
            exists p, p ∈ arrived a /\ place_id p = i /\
                      accepted category bounds p = true).
  { intros a i. rewrite merged_fold.
    apply (fold_ids _ _ (distance_filtered category bounds)). }
  split; [apply Hids |].
  intros arrivals' Hperm. apply NoDup_Permutation.
  - apply merged_consistent.
  - apply merged_consistent.
  - intros i. rewrite !Hids.
    apply arrived_Permutation in Hperm.
    split; intros (Hne & p & Hp & Hid & Hok); (split; [exact Hne |]);
      exists p; (split; [| auto]).
    + now rewrite <- Hperm.
    + now rewrite Hperm.
Qed.

Lemma merged_identifiers_do_not_depend_on_order_witness :
  place_id <$> allResults (merged "restaurant" None
     [Fulfilled [place "a" 40.75 (-73.98) ["restaurant"] None];
      Fulfilled [place "b" 40.76 (-73.97) ["food"] None]])
  ≡ₚ place_id <$> allResults (merged "restaurant" None
     [Fulfilled [place "b" 40.76 (-73.97) ["food"] None];
      Fulfilled [place "a" 40.75 (-73.98) ["restaurant"] None]]).
Proof.
  apply (merged_identifiers_do_not_depend_on_order "restaurant" None).
  apply Permutation_swap.
Defined.

(** The output of the aggregation has at most [maxResults] places, 80 when
    the caller gives no number; when the accumulator holds no more than
    that, the output is the whole accumulator, reordered. *)
Theorem aggregation_output_size (category : string) (location : LatLng)
    (bounds : option Bounds) :
  (forall arrivals maxResults out,
     aggregate category location bounds arrivals maxResults = Fulfilled out ->
     (0 <= maxResults)%Z ->
     (length out <= Z.to_nat maxResults)%nat /\
     ((Z.of_nat (length (allResults (merged category bounds arrivals)))
       <= maxResults)%Z ->
      out ≡ₚ allResults (merged category bounds arrivals))) /\
  (forall env out,
     searchLocationsByDistanceAndPopularity category location bounds env None
     = Fulfilled out ->
     (length out <= 80)%nat).
Proof.
  assert (Hagg : forall arrivals maxResults out,
     aggregate category location bounds arrivals maxResults = Fulfilled out ->
     (0 <= maxResults)%Z ->
     (length out <= Z.to_nat maxResults)%nat /\
     ((Z.of_nat (length (allResults (merged category bounds arrivals)))
       <= maxResults)%Z ->
      out ≡ₚ allResults (merged category bounds arrivals))).
  { intros arrivals maxResults out ->%aggregate_Fulfilled Hn. split.
    - now apply slice0_length.
    - intros Hall. rewrite slice0_all.
      + apply (sort_Permutation (calculateScore location)).
      + pose proof (sort_Permutation (calculateScore location)
                      (allResults (merged category bounds arrivals))) as Hp.
        apply Permutation_length in Hp. unfold byScore. lia. }
  split; [exact Hagg |].
  intros env out. unfold searchLocationsByDistanceAndPopularity.
  destruct (google_loaded env); simpl; [| discriminate].
  intros H. apply Hagg in H as [H _]; [exact H | unfold maxSearchResults; lia].
Qed.

Lemma aggregation_output_size_witness :
  (length [place "a" 40.75 (-73.98) [] None] <= Z.to_nat 1)%nat.
Proof.
  destruct (aggregation_output_size "establishment" center None) as [Hagg _].
  apply (Hagg [Fulfilled [place "a" 40.75 (-73.98) [] None]] 1%Z);
    [reflexivity | lia].
Defined.

(** Every place of the output of the aggregation has a name, an address
    and a photo list, and, when the category is known and the place has
    tags, a tag the category accepts. *)
Theorem aggregation_output_is_filtered (category : string)
    (location : LatLng) (bounds : option Bounds)
    (arrivals : list (Promise (list GeocodingResult))) (maxResults : Z)
    (out : list GeocodingResult) :
  aggregate category location bounds arrivals maxResults = Fulfilled out ->
  Forall (fun r =>
            complete r /\
            passesTypeFilter true (placeTypeOf category) (types r) = true)
    out.
Proof.
  intros Hagg. apply Forall_forall. intros r Hr.
  eapply aggregate_elem_of in Hr; [| exact Hagg].
  revert r Hr. apply Forall_forall.
  rewrite merged_run. apply run_Forall; [| constructor].
  intros p _ [Ht _]%andb_true_iff. split; [apply pushed_complete | exact Ht].
Qed.

Lemma aggregation_output_is_filtered_witness :
  Forall (fun r =>
            complete r /\
            passesTypeFilter true (placeTypeOf "restaurant") (types r) = true)
    [place "a" 40.75 (-73.98) ["food"] None].
Proof.
  apply (aggregation_output_is_filtered "restaurant" center None
           [Fulfilled [place "h" 40.75 (-73.98) ["lodging"] None;
                       place "a" 40.75 (-73.98) ["food"] None]] 80%Z).
  reflexivity.
Defined.

End DistanceExtras.

(** ** More on the text search, the category search and the extended
    search *)

Module SearchExtras.
Import Geo Js ModernPlacesAPI Classifier Accumulator Seen Pages.
Import ListFacts AccFacts StepFacts AdapterClaims Samples.
Local Open Scope string_scope.

Lemma textInvariant_empty placeType :
  textInvariant ∅ placeType Accumulator.empty.
Proof.
  split; [apply fresh_consistent, empty_consistent | constructor].
Qed.

Lemma textInvariant_add start placeType st places :
  textInvariant start placeType st ->
  textInvariant start placeType (TextSearch.addUniqueResults placeType st places).
Proof.
  intros [Hf HQ]. split.
  - now apply (fold_fresh _ _ (text_filtered placeType)).
  - apply (fold_Forall _ _ (text_filtered placeType)); [| exact HQ].
    intros p Hp. split; [apply pushed_complete | exact Hp].
Qed.

Lemma attempt_invariant placeType p st rest out (Concl : Prop) :
  textInvariant ∅ placeType st ->
  (forall st', textInvariant ∅ placeType st' -> rest st' = Fulfilled out -> Concl) ->
  TextSearch.attempt placeType p st rest = Fulfilled out -> Concl.
Proof.
  intros Hst Hrest. destruct p as [| places | reason]; simpl;
    [discriminate | |]; apply Hrest; [| exact Hst].
  now apply textInvariant_add.
Qed.

Lemma searchLocations_accumulator env query category location bounds out :
  TextSearch.searchLocations env query category location bounds = Fulfilled out ->
  exists st,
    textInvariant ∅
      (TextSearch.placeTypeOf (TextSearch.detectedCategory query category)) st /\
    out = slice0 (allResults st) DistanceSearch.maxSearchResults.
Proof.
  unfold TextSearch.searchLocations.
  destruct (google_loaded env); simpl; [| discriminate].
  set (pt := TextSearch.placeTypeOf (TextSearch.detectedCategory query category)).
  clearbody pt.
  assert (Hlast : forall st', textInvariant ∅ pt st' ->
            Fulfilled (slice0 (allResults st') DistanceSearch.maxSearchResults)
            = Fulfilled out ->
            exists st, textInvariant ∅ pt st /\
              out = slice0 (allResults st) DistanceSearch.maxSearchResults).
  { intros st' Hst' [= <-]. now exists st'. }
  apply attempt_invariant; [apply textInvariant_empty |].
  intros st1 Hst1.
  destruct location as [l |]; [| now apply Hlast].
  assert (Hfind : forall st2, textInvariant ∅ pt st2 ->
            TextSearch.attempt pt
              (findPlaceFromQuery env query (Some l)
                 (Some (TextSearch.searchRadius (Some l) bounds))) st2
              (fun st3 => Fulfilled (slice0 (allResults st3)
                                       DistanceSearch.maxSearchResults))
            = Fulfilled out ->
            exists st, textInvariant ∅ pt st /\
              out = slice0 (allResults st) DistanceSearch.maxSearchResults).
  { intros st2 Hst2. now apply attempt_invariant. }
  destruct pt as [t |]; [destruct (truthy t) |].
  - apply attempt_invariant; [exact Hst1 |]. intros st2 Hst2. now apply Hfind.
  - now apply Hfind.
  - now apply Hfind.
Qed.

Lemma fresh_NoDup_sublist start st (l : list GeocodingResult) :
  fresh start st -> l `sublist_of` allResults st -> NoDup (place_id <$> l).
Proof.
  intros (_ & Hnd & _) Hsub.
  eapply sublist_NoDup; [exact Hnd | now apply fmap_sublist].
Qed.

(** A fulfilled [searchLocations] returns at most 80 places, no identifier
    twice and none empty; every place has a name, an address and a photo
    list and, when a type was found for the category and the place has
    tags, a tag the type accepts. *)
Theorem searchLocations_output (env : Env) (query : string)
    (category : option string) (location : option LatLng)
    (bounds : option Bounds) (out : list GeocodingResult) :
  TextSearch.searchLocations env query category location bounds
  = Fulfilled out ->
  (length out <= 80)%nat /\
  NoDup (place_id <$> out) /\
  Forall (fun r =>
            place_id r <> "" /\ complete r /\
            passesTypeFilter false
              (TextSearch.placeTypeOf (TextSearch.detectedCategory query category))
              (types r) = true)
    out.
Proof.
  intros (st & [Hf HQ] & ->)%searchLocations_accumulator.
  split; [| split].
  - apply (slice0_length (allResults st) 80). lia.
  - eapply fresh_NoDup_sublist; [exact Hf | apply slice0_sublist].
  - destruct Hf as (_ & _ & Hne).
    apply Forall_forall. intros r Hr.
    eapply elem_of_sublist in Hr; [| apply slice0_sublist].
    rewrite Forall_forall in HQ, Hne.
    destruct (HQ r Hr) as [Hc Ht]. destruct (Hne r Hr) as [Hid _].
    auto.
Qed.

Lemma searchLocations_output_witness :
  (length [convertPlace (tagged "r1" ["restaurant"; "food"])] <= 80)%nat.
Proof.
  apply (searchLocations_output (answering true hotelAndSushi)
           "sushi restaurant" None None None).
  reflexivity.
Defined.

Lemma category_attempt_fresh placeType p st rest out (Concl : Prop) :
  fresh ∅ st ->
  (forall st', fresh ∅ st' -> rest st' = Fulfilled out -> Concl) ->
  CategorySearch.attempt placeType p st rest = Fulfilled out -> Concl.
Proof.
  intros Hst Hrest. destruct p as [| places | reason]; simpl;
    [discriminate | |]; apply Hrest; [| exact Hst].
  now apply (fold_fresh _ _ (category_filtered placeType)).
Qed.

(** [searchByCategory] is never rejected: without the SDK it is fulfilled
    with no place; a category other than the five is searched as
    'establishment', under which no place is filtered out by its tags; and
    the result has at most 80 places and no identifier twice. *)
Theorem searchByCategory_absorbs_failures (env : Env) (category : string)
    (location : option LatLng) :
  (forall reason,
     CategorySearch.searchByCategory env category location <> Rejected reason) /\
  (google_loaded env = false ->
   CategorySearch.searchByCategory env category location = Fulfilled []) /\
  (category ∉ ["restaurants"; "hotels"; "attractions"; "shopping"; "cafes"] ->
   CategorySearch.placeTypeOf category = "establishment" /\
   forall (st : Acc) (p : GeocodingResult),
     isNew st p = true ->
     CategorySearch.addUniqueResult (CategorySearch.placeTypeOf category) st p
     = add st p) /\
  (forall out,
     CategorySearch.searchByCategory env category location = Fulfilled out ->
     (length out <= 80)%nat /\ NoDup (place_id <$> out)).
Proof.
  set (pt := CategorySearch.placeTypeOf category).
  assert (Hacc : forall out,
            CategorySearch.searchByCategory env category location = Fulfilled out ->
            exists st, fresh ∅ st /\
              out = slice0 (allResults st) DistanceSearch.maxSearchResults).
  { intros out. unfold CategorySearch.searchByCategory. fold pt. cbv zeta.
    assert (Hlast : forall st', fresh ∅ st' ->
              Fulfilled (slice0 (allResults st') DistanceSearch.maxSearchResults)
              = Fulfilled out ->
              exists st, fresh ∅ st /\
                out = slice0 (allResults st) DistanceSearch.maxSearchResults).
    { intros st' Hst' [= <-]. now exists st'. }
    apply category_attempt_fresh;
      [apply fresh_consistent, empty_consistent |].
    intros st1 Hst1. destruct location as [l |]; [| now apply Hlast].
    now apply category_attempt_fresh. }
  split; [| split; [| split]].
  - intros reason. unfold CategorySearch.searchByCategory. fold pt. cbv zeta.
    destruct (textSearch _ _ _ _ _); simpl; try discriminate;
      destruct location as [l |]; try discriminate;
      destruct (nearbySearch _ _ _ _); discriminate.
  - intros Hl. unfold CategorySearch.searchByCategory, textSearch, nearbySearch.
    rewrite Hl; simpl. now destruct location.
  - intros Hother.
    assert (Hpt : pt = "establishment").
    { unfold pt, CategorySearch.placeTypeOf.
      repeat match goal with
      | |- context [String.eqb category ?k] =>
          destruct (String.eqb_spec category k) as [-> | _];
          [exfalso; apply Hother;
           repeat first [apply list_elem_of_here | apply list_elem_of_further] |]
      end.
      reflexivity. }
    split; [exact Hpt |]. rewrite Hpt.
    intros st p Hn. unfold CategorySearch.addUniqueResult. rewrite Hn.
    destruct (types p) as [| t ts]; [reflexivity |].
    change (isCorrectType false "establishment") with (fun _ : string => true).
    reflexivity.
  - intros out (st & Hf & ->)%Hacc. split.
    + apply (slice0_length (allResults st) 80). lia.
    + eapply fresh_NoDup_sublist; [exact Hf | apply slice0_sublist].
Qed.

Lemma searchByCategory_absorbs_failures_witness :
  CategorySearch.searchByCategory (answering false hotelAndSushi) "bars" None
  = Fulfilled [] /\
  CategorySearch.addUniqueResult "establishment" Accumulator.empty
    (place "h1" 40.75 (-73.98) ["lodging"] None)
  = add Accumulator.empty (place "h1" 40.75 (-73.98) ["lodging"] None) /\
  (length [convertPlace (tagged "r1" ["restaurant"; "food"])] <= 80)%nat.
Proof.
  split; [| split].
  - apply (searchByCategory_absorbs_failures (answering false hotelAndSushi)
             "bars" None). reflexivity.
  - destruct (searchByCategory_absorbs_failures (answering true hotelAndSushi)
                "bars" None) as (_ & _ & Hest & _).
    apply Hest; [| reflexivity].
    intros H; repeat (apply elem_of_cons in H as [H | H]; [discriminate |]);
      now apply elem_of_nil in H.
  - destruct (searchByCategory_absorbs_failures (answering true hotelAndSushi)
                "restaurants" None) as (_ & _ & _ & Hout).
    apply (Hout [convertPlace (tagged "r1" ["restaurant"; "food"])]).
    reflexivity.
Defined.

(** [getNearbyPlaces] is never rejected: without the SDK it is fulfilled
    with no place, and otherwise with the first 80 places of the nearby
    search, in their order. *)
Theorem getNearbyPlaces_is_a_prefix (env : Env) (latitude longitude : R)
    (radius : option R) (category : option string) :
  (forall reason,
     CategorySearch.getNearbyPlaces env latitude longitude radius category
     <> Rejected reason) /\
  (google_loaded env = false ->
   CategorySearch.getNearbyPlaces env latitude longitude radius category
   = Fulfilled []) /\
  (forall out,
     google_loaded env = true ->
     CategorySearch.getNearbyPlaces env latitude longitude radius category
     = Fulfilled out ->
     (length out <= 80)%nat /\
     exists placeType nearbyResults,
       nearbySearch env {| lat := latitude; lng := longitude |}
         (default 1000%R radius) placeType = Fulfilled nearbyResults /\
       out `prefix_of` nearbyResults).
Proof.
  unfold CategorySearch.getNearbyPlaces. split; [| split].
  - intros reason. destruct (google_loaded env); simpl; [| discriminate].
    destruct (nearbySearch _ _ _ _); discriminate.
  - now intros ->.
  - intros out Hl. rewrite Hl. simpl.
    set (pt := match category with Some c => _ | None => None end).
    destruct (nearbySearch env _ _ pt) as [| nearbyResults | reason] eqn:Hn;
      [discriminate | | ].
    + intros [= <-]. split; [apply (slice0_length nearbyResults 80); lia |].
      exists pt, nearbyResults. split; [exact Hn | apply slice0_prefix].
    + apply nearbySearch_Rejected in Hn as [Hn _]. congruence.
Qed.

Lemma getNearbyPlaces_is_a_prefix_witness :
  CategorySearch.getNearbyPlaces (answering false hotelAndSushi)
    40.75 (-73.98) None None = Fulfilled [] /\
  (length [convertPlace (tagged "h1" ["lodging"]);
           convertPlace (tagged "r1" ["restaurant"; "food"])] <= 80)%nat.
Proof.
  split.
  - apply (getNearbyPlaces_is_a_prefix (answering false hotelAndSushi)).
    reflexivity.
  - destruct (getNearbyPlaces_is_a_prefix (answering true hotelAndSushi)
                40.75%R (-73.98)%R None None) as (_ & _ & Hout).
    apply (Hout [convertPlace (tagged "h1" ["lodging"]);
                 convertPlace (tagged "r1" ["restaurant"; "food"])]);
      reflexivity.
Defined.

Lemma additional_fresh placeType base arrivals :
  fresh (list_to_set (place_id <$> base))
    (ExtendedSearch.additional placeType base arrivals).
Proof.
  unfold ExtendedSearch.additional.
  generalize (fresh_start (place_id <$> base)).
  generalize {| allResults := [];
                seenPlaceIds := list_to_set (place_id <$> base) |}.
  induction arrivals as [| p arrivals IH]; intros st Hst; [exact Hst |].
  simpl. apply IH. destruct p as [| places | reason]; simpl; try exact Hst.
  now apply (fold_fresh _ _ (text_filtered placeType)).
Qed.

(** A fulfilled [searchLocationsExtended] returns the base results of
    [searchLocations] followed by additional places, cut at 80: the early
    return at 100 base results is never taken, the base results come first
    and no identifier occurs twice.  The search is rejected exactly when the
    SDK is not loaded. *)
Theorem searchLocationsExtended_extends_the_base (env : Env) (query : string)
    (category : option string) (location : option LatLng) :
  (forall out,
     ExtendedSearch.searchLocationsExtended env query category location
     = Fulfilled out ->
     exists base,
       TextSearch.searchLocations env query category location None
       = Fulfilled base /\
       out = slice0
               (base ++
                allResults
                  (ExtendedSearch.additional
                     (ExtendedSearch.placeTypeOf category) base
                     (completion env
                        (ExtendedSearch.additionalSearches env query category
                           location))))%list
               DistanceSearch.maxSearchResults /\
       base `prefix_of` out /\
       NoDup (place_id <$> out) /\
       (length out <= 80)%nat) /\
  (forall reason,
     ExtendedSearch.searchLocationsExtended env query category location
     = Rejected reason <->
     google_loaded env = false /\ reason = "Google Maps API not available").
Proof.
  unfold ExtendedSearch.searchLocationsExtended. split.
  - intros out.
    destruct (TextSearch.searchLocations env query category location None)
      as [| base | reason] eqn:Hbase; [discriminate | |].
    + pose proof (searchLocations_output _ _ _ _ _ _ Hbase)
        as (Hlen & Hnd & Hne).
      unfold ExtendedSearch.extend.
      destruct (100 <=? length base)%nat eqn:Hbig;
        [apply Nat.leb_le in Hbig; lia |].
      destruct (existsb isPending _); [discriminate |].
      intros [= <-]. exists base. split; [reflexivity |].
      split; [reflexivity |].
      set (extra := allResults (ExtendedSearch.additional _ base _)).
      pose proof (additional_fresh (ExtendedSearch.placeTypeOf category) base
                    (completion env
                       (ExtendedSearch.additionalSearches env query category
                          location))) as (_ & Hnd2 & Hne2).
      fold extra in Hnd2, Hne2.
      split; [| split].
      * rewrite slice0_nonneg by (unfold DistanceSearch.maxSearchResults; lia).
        replace (Z.to_nat DistanceSearch.maxSearchResults) with 80%nat
          by reflexivity.
        rewrite take_app_ge by lia. now apply prefix_app_r.
      * eapply sublist_NoDup; [| apply fmap_sublist, slice0_sublist].
        rewrite fmap_app. apply NoDup_app. split; [exact Hnd |].
        split; [| exact Hnd2].
        intros i Hi (r & -> & Hr)%list_elem_of_fmap.
        rewrite Forall_forall in Hne2. destruct (Hne2 r Hr) as [_ Hout].
        apply Hout. now apply elem_of_list_to_set.
      * apply (slice0_length (base ++ extra) 80). lia.
    + discriminate.
  - intros reason.
    destruct (TextSearch.searchLocations env query category location None)
      as [| base | r] eqn:Hbase.
    + split; [discriminate |]. intros [Hl ->].
      pose proof (proj2 (searchLocations_Rejected env query category location
                           None "Google Maps API not available")
                    (conj Hl eq_refl)) as H.
      congruence.
    + split.
      * unfold ExtendedSearch.extend.
        destruct (100 <=? length base)%nat; [discriminate |].
        destruct (existsb isPending _); discriminate.
      * intros [Hl ->].
        pose proof (proj2 (searchLocations_Rejected env query category location
                             None "Google Maps API not available")
                      (conj Hl eq_refl)) as H.
        congruence.
    + apply searchLocations_Rejected in Hbase as [Hl ->].
      split; [now intros [= <-] | now intros [_ ->]].
Qed.

Lemma searchLocationsExtended_extends_the_base_witness :
  [convertPlace (tagged "r1" ["restaurant"; "food"])]
  `prefix_of` [convertPlace (tagged "r1" ["restaurant"; "food"])] /\
  google_loaded (answering false hotelAndSushi) = false.
Proof.
  split.
  - destruct (searchLocationsExtended_extends_the_base
                (answering true hotelAndSushi) "sushi" (Some "restaurants") None)
      as [Hout _].
    destruct (Hout [convertPlace (tagged "r1" ["restaurant"; "food"])])
      as (base & Hbase & _ & Hpre & _); [reflexivity |].
    injection Hbase as <-. exact Hpre.
  - destruct (searchLocationsExtended_extends_the_base
                (answering false hotelAndSushi) "sushi" None None)
      as [_ Hrej].
    apply (Hrej "Google Maps API not available"). reflexivity.
Defined.

End SearchExtras.

(** ** Place details and photos *)

Module DetailsExtras.
Import Geo Js ModernPlacesAPI Pages PlaceDetails.
Import AccFacts Samples MoreSamples.
Local Open Scope string_scope.

(** Unfolds the awaits of a computation and splits on what it tests. *)
Ltac run_async :=
  unfold getDetailedPlaceInfo, getPlaceWithMultiplePhotos, getPlaceDetails,
    try_catch, await, getDetails, resolve, reject;
  simpl;
  repeat match goal with
  | |- context [match ?x with _ => _ end] => destruct x eqn:?; simpl
  end.

Lemma getPlaceWithMultiplePhotos_spec loaded placeId answers :
  (forall reason,
     fst (getPlaceWithMultiplePhotos loaded placeId answers) <> Rejected reason) /\
  (length (snd (getPlaceWithMultiplePhotos loaded placeId answers))
   <= length answers
   <= length (snd (getPlaceWithMultiplePhotos loaded placeId answers)) + 2)%nat /\
  (forall r,
     fst (getPlaceWithMultiplePhotos loaded placeId answers) = Fulfilled (Some r) ->
     exists first, firstAnswer answers first /\ detailsOf first r).
Proof.
  unfold firstAnswer, detailsOf.
  destruct loaded; [| run_async; repeat split; try discriminate; simpl; lia].
  destruct answers as [| [cb |] rest];
    [run_async; repeat split; try discriminate; simpl; lia | |
     run_async; repeat split; try discriminate; simpl; lia].
  unfold getPlaceWithMultiplePhotos, getPlaceDetails, try_catch, await,
    getDetails, resolve, reject; simpl.
  destruct (dc_status cb) eqn:Hs;
    try (simpl; repeat split; try discriminate; simpl; lia).
  destruct (dc_result cb) as [first |] eqn:Hr;
    [| simpl; repeat split; try discriminate; simpl; lia].
  simpl.
  destruct (1 <? photoCount (convertPlace first))%nat.
  { simpl. repeat split; try discriminate; try lia.
    intros r [= <-]. exists first. split; [| now left]. now exists cb, rest. }
  destruct (photoCount (convertPlace first) =? 1)%nat.
  2: { simpl. repeat split; try discriminate; try lia.
       intros r [= <-]. exists first. split; [| now left]. now exists cb, rest. }
  destruct rest as [| [cb2 |] rest2]; simpl;
    try (repeat split; try discriminate; simpl; lia).
  repeat split; try discriminate; try lia.
  intros r [= <-]. exists first. split; [now exists cb, (Some cb2 :: rest2) |].
  destruct (dc_status cb2); try now left.
  destruct (dc_result cb2) as [second |]; [| now left].
  destruct (pr_photos second) as [ph |]; [| now left].
  right. exists (take 10 ph). split; [| reflexivity].
  rewrite length_take. lia.
Qed.

Lemma getDetailedPlaceInfo_spec loaded placeId answers :
  (forall reason,
     fst (getDetailedPlaceInfo loaded placeId answers) <> Rejected reason) /\
  (length (snd (getDetailedPlaceInfo loaded placeId answers))
   <= length answers
   <= length (snd (getDetailedPlaceInfo loaded placeId answers)) + 3)%nat /\
  (forall r,
     fst (getDetailedPlaceInfo loaded placeId answers) = Fulfilled (Some r) ->
     exists first,
       firstAnswer answers first /\ detailsOf first r /\
       (photoCount (convertPlace first) = 0%nat -> r = convertPlace first)).
Proof.
  unfold firstAnswer, detailsOf.
  destruct loaded;
    [| unfold getDetailedPlaceInfo, getPlaceDetails, try_catch, await, reject,
         resolve; simpl; repeat split; try discriminate; lia].
  unfold getDetailedPlaceInfo, getPlaceDetails, try_catch, await, getDetails,
    resolve, reject; simpl.
  destruct answers as [| [cb |] rest]; simpl;
    try (repeat split; try discriminate; simpl; lia).
  destruct (dc_status cb) eqn:Hs;
    try (simpl; repeat split; try discriminate; simpl; lia).
  destruct (dc_result cb) as [first |] eqn:Hr;
    [| simpl; repeat split; try discriminate; simpl; lia].
  simpl.
  destruct (0 <? photoCount (convertPlace first))%nat eqn:Hpc.
  2: { simpl. repeat split; try discriminate; try lia.
       intros r [= <-]. exists first.
       split; [now exists cb, rest |]. split; [now left | reflexivity]. }
  apply Nat.ltb_lt in Hpc.
  pose proof (getPlaceWithMultiplePhotos_spec true placeId rest)
    as (Hrej & Hlen & _).
  destruct (getPlaceWithMultiplePhotos true placeId rest) as [p rest2].
  simpl in Hrej, Hlen.
  destruct p as [| enhanced | reason]; simpl.
  - repeat split; try discriminate; lia.
  - repeat split; try discriminate; try lia.
    intros r [= <-]. exists first.
    split; [now exists cb, rest |]. split; [| lia].
    destruct enhanced as [e |]; [| now left].
    destruct (photos e) as [ph |]; [| now left].
    right. exists (take 10 ph). split; [| reflexivity].
    rewrite length_take. lia.
  - now destruct (Hrej reason).
Qed.

Lemma enhanceFrom_cons loaded result rest enhanced answers :
  enhanceFrom loaded (result :: rest) enhanced answers =
  if (0 <? photoCount result)%nat then
    match getPlaceWithMultiplePhotos loaded (place_id result) answers with
    | (Fulfilled enhancedPlace, answers') =>
        enhanceFrom loaded rest
          (enhanced ++ [default result enhancedPlace])%list answers'
    | (Pending, answers') => (Pending, answers')
    | (Rejected _, answers') =>
        enhanceFrom loaded rest (enhanced ++ [result])%list answers'
    end
  else enhanceFrom loaded rest (enhanced ++ [result])%list answers.
Proof.
  simpl. unfold await, try_catch, resolve.
  destruct (0 <? photoCount result)%nat; [| reflexivity].
  now destruct (getPlaceWithMultiplePhotos loaded (place_id result) answers)
    as [[| e | reason] answers'].
Qed.

Lemma enhanceFrom_spec loaded results : forall enhanced answers,
  (forall reason,
     fst (enhanceFrom loaded results enhanced answers) <> Rejected reason) /\
  (length (snd (enhanceFrom loaded results enhanced answers))
   <= length answers
   <= length (snd (enhanceFrom loaded results enhanced answers))
      + 2 * withPhoto results)%nat /\
  (forall out,
     fst (enhanceFrom loaded results enhanced answers) = Fulfilled out ->
     exists added,
       out = (enhanced ++ added)%list /\
       length added = length results /\
       (forall i r, results !! i = Some r -> photoCount r = 0%nat ->
                    added !! i = Some r)).
Proof.
  induction results as [| result rest IH]; intros enhanced answers.
  - simpl. unfold resolve; simpl. repeat split; try discriminate; try lia.
    intros out [= <-]. exists []. rewrite app_nil_r.
    repeat split. intros i r Hi. now rewrite lookup_nil in Hi.
  - unfold withPhoto. rewrite filter_cons. fold (withPhoto rest).
    rewrite enhanceFrom_cons.
    destruct (0 <? photoCount result)%nat eqn:Hpc.
    + apply Nat.ltb_lt in Hpc.
      destruct (decide (0 < photoCount result)%nat) as [_ | Hno]; [| lia].
      pose proof (getPlaceWithMultiplePhotos_spec loaded (place_id result) answers)
        as (Hrej & Hlen & _).
      destruct (getPlaceWithMultiplePhotos loaded (place_id result) answers)
        as [p answers2].
      simpl in Hrej, Hlen.
      destruct p as [| enhancedPlace | reason].
      * simpl. repeat split; try discriminate; lia.
      * destruct (IH (enhanced ++ [default result enhancedPlace])%list answers2)
          as (IHrej & IHlen & IHout).
        split; [exact IHrej |].
        split; [unfold withPhoto in *; cbn [length]; lia |].
        intros out (added & -> & Hla & Hkeep)%IHout.
        exists (default result enhancedPlace :: added).
        rewrite <- app_assoc. split; [reflexivity |].
        split; [simpl; lia |].
        intros [| i] r Hi Hr; simpl in *; [| now apply Hkeep].
        injection Hi as ->. lia.
      * now destruct (Hrej reason).
    + apply Nat.ltb_ge in Hpc.
      destruct (decide (0 < photoCount result)%nat) as [Hyes | _]; [lia |].
      destruct (IH (enhanced ++ [result])%list answers)
        as (IHrej & IHlen & IHout).
      split; [exact IHrej |]. split; [exact IHlen |].
      intros out (added & -> & Hla & Hkeep)%IHout.
      exists (result :: added). rewrite <- app_assoc. split; [reflexivity |].
      split; [simpl; lia |].
      intros [| i] r Hi Hr; simpl in *; [congruence | now apply Hkeep].
Qed.

Lemma enhanceFrom_not_loaded results : forall enhanced answers,
  enhanceFrom false results enhanced answers
  = (Fulfilled (enhanced ++ results)%list, answers).
Proof.
  induction results as [| result rest IH]; intros enhanced answers.
  - simpl. now rewrite app_nil_r.
  - rewrite enhanceFrom_cons.
    replace (getPlaceWithMultiplePhotos false (place_id result) answers)
      with (Fulfilled (@None GeocodingResult), answers) by reflexivity.
    simpl default. destruct (0 <? photoCount result)%nat;
      rewrite IH, <- app_assoc; reflexivity.
Qed.

(** The photo lookups are never rejected, and without the SDK they reach
    no service: the two lookups of one place give no place, and
    [enhanceResultsWithPhotos] gives back its argument. *)
Theorem photo_lookups_absorb_failures (loaded : bool) (placeId : string)
    (results : list GeocodingResult) (answers : Answers) :
  (forall reason,
     fst (getPlaceWithMultiplePhotos loaded placeId answers) <> Rejected reason /\
     fst (getDetailedPlaceInfo loaded placeId answers) <> Rejected reason /\
     fst (enhanceResultsWithPhotos loaded results answers) <> Rejected reason) /\
  (loaded = false ->
   getPlaceWithMultiplePhotos loaded placeId answers = (Fulfilled None, answers) /\
   getDetailedPlaceInfo loaded placeId answers = (Fulfilled None, answers) /\
   enhanceResultsWithPhotos loaded results answers = (Fulfilled results, answers)).
Proof.
  split.
  - intros reason. split; [| split].
    + apply getPlaceWithMultiplePhotos_spec.
    + apply getDetailedPlaceInfo_spec.
    + apply enhanceFrom_spec.
  - intros ->. split; [reflexivity |]. split; [reflexivity |].
    unfold enhanceResultsWithPhotos. now rewrite enhanceFrom_not_loaded.
Qed.

Lemma photo_lookups_absorb_failures_witness :
  enhanceResultsWithPhotos false
    [convertPlace (pictured "m1" ["u1"])] [found (pictured "m1" twelve)]
  = (Fulfilled [convertPlace (pictured "m1" ["u1"])],
     [found (pictured "m1" twelve)]).
Proof.
  apply (photo_lookups_absorb_failures false "m1"
           [convertPlace (pictured "m1" ["u1"])]
           [found (pictured "m1" twelve)]).
  reflexivity.
Defined.

(** [enhanceResultsWithPhotos] returns as many places as it is given, a
    place without photos at its position and as it is, and makes no request
    for it: the service is called at most twice for each place that has a
    photo. *)
Theorem enhanceResultsWithPhotos_keeps_the_places (loaded : bool)
    (results : list GeocodingResult) (answers : Answers) :
  (length answers
   <= length (snd (enhanceResultsWithPhotos loaded results answers))
      + 2 * withPhoto results)%nat /\
  (forall out,
     fst (enhanceResultsWithPhotos loaded results answers) = Fulfilled out ->
     length out = length results /\
     (forall i r, results !! i = Some r -> photoCount r = 0%nat ->
                  out !! i = Some r)).
Proof.
  unfold enhanceResultsWithPhotos.
  destruct (enhanceFrom_spec loaded results [] answers) as (_ & Hlen & Hout).
  split; [lia |].
  intros out (added & -> & Hla & Hkeep)%Hout. now split.
Qed.

Lemma enhanceResultsWithPhotos_keeps_the_places_witness :
  length [place "a" 40.75 (-73.98) [] None;
          withPhotos (convertPlace (pictured "m1" ["u1"])) (take 10 twelve)]
  = length [place "a" 40.75 (-73.98) [] None;
            convertPlace (pictured "m1" ["u1"])] /\
  [place "a" 40.75 (-73.98) [] None;
   withPhotos (convertPlace (pictured "m1" ["u1"])) (take 10 twelve)] !! 0%nat
  = Some (place "a" 40.75 (-73.98) [] None).
Proof.
  destruct (enhanceResultsWithPhotos_keeps_the_places true
              [place "a" 40.75 (-73.98) [] None;
               convertPlace (pictured "m1" ["u1"])]
              [found (pictured "m1" ["u1"]); found (pictured "m1" twelve)])
    as [_ Hout].
  destruct (Hout [place "a" 40.75 (-73.98) [] None;
                  withPhotos (convertPlace (pictured "m1" ["u1"]))
                    (take 10 twelve)]) as [Hlen Hkeep]; [reflexivity |].
  split; [exact Hlen |].
  apply Hkeep; reflexivity.
Defined.

(** A place that [getPlaceWithMultiplePhotos] gives is the conversion of
    the first answer of the service, as it is or with a photo list of at
    most ten photos in place of its own; the service is called at most
    twice. *)
Theorem getPlaceWithMultiplePhotos_changes_photos_only (loaded : bool)
    (placeId : string) (answers : Answers) :
  (length answers
   <= length (snd (getPlaceWithMultiplePhotos loaded placeId answers)) + 2)%nat /\
  (forall r,
     fst (getPlaceWithMultiplePhotos loaded placeId answers)
     = Fulfilled (Some r) ->
     exists first, firstAnswer answers first /\ detailsOf first r).
Proof.
  destruct (getPlaceWithMultiplePhotos_spec loaded placeId answers)
    as (_ & Hlen & Hout).
  split; [lia | exact Hout].
Qed.

Lemma getPlaceWithMultiplePhotos_changes_photos_only_witness :
  exists first,
    firstAnswer [found (pictured "m1" ["u1"]); found (pictured "m1" twelve)]
      first /\
    detailsOf first
      (withPhotos (convertPlace (pictured "m1" ["u1"])) (take 10 twelve)).
Proof.
  apply (getPlaceWithMultiplePhotos_changes_photos_only true "m1"
           [found (pictured "m1" ["u1"]); found (pictured "m1" twelve)]).
  reflexivity.
Defined.

(** A place that [getDetailedPlaceInfo] gives is the conversion of the
    first answer of the service, as it is when it has no photo, and else as
    it is or with a photo list of at most ten photos; the service is called
    at most three times. *)
Theorem getDetailedPlaceInfo_details (loaded : bool) (placeId : string)
    (answers : Answers) :
  (length answers
   <= length (snd (getDetailedPlaceInfo loaded placeId answers)) + 3)%nat /\
  (forall r,
     fst (getDetailedPlaceInfo loaded placeId answers) = Fulfilled (Some r) ->
     exists first,
       firstAnswer answers first /\ detailsOf first r /\
       (photoCount (convertPlace first) = 0%nat -> r = convertPlace first)).
Proof.
  destruct (getDetailedPlaceInfo_spec loaded placeId answers)
    as (_ & Hlen & Hout).
  split; [lia | exact Hout].
Qed.

Lemma getDetailedPlaceInfo_details_witness :
  exists first,
    firstAnswer [found (pictured "m1" [])] first /\
    detailsOf first (convertPlace (pictured "m1" [])) /\
    (photoCount (convertPlace first) = 0%nat ->
     convertPlace (pictured "m1" []) = convertPlace first).
Proof.
  apply (getDetailedPlaceInfo_details true "m1" [found (pictured "m1" [])]).
  reflexivity.
Defined.

End DetailsExtras.

(** ** Autocomplete suggestions *)

Module AutocompleteExtras.
Import Geo Js ModernPlacesAPI Pages Autocomplete.
Import AccFacts AdapterExtras Samples.
Local Open Scope string_scope.

Lemma collect_spec env descriptions : forall results,
  (forall reason, collect env descriptions results <> Rejected reason) /\
  (forall out,
     collect env descriptions results = Fulfilled out ->
     exists added,
       out = (results ++ added)%list /\
       (length added <= length descriptions)%nat /\
       Forall complete added).
Proof.
  induction descriptions as [| d rest IH]; intros results; simpl.
  - split; [discriminate |]. intros out [= <-]. exists [].
    rewrite app_nil_r. split; [reflexivity | split; [simpl; lia | constructor]].
  - destruct (findPlaceFromQuery env (default "" d) None None)
      as [| findResults | reason] eqn:Hfind.
    + split; [discriminate | discriminate].
    + apply findPlaceFromQuery_complete in Hfind.
      destruct findResults as [| first others].
      * destruct (IH results) as [Hrej Hout]. split; [exact Hrej |].
        intros out (added & -> & Hlen & Hc)%Hout.
        exists added. split; [reflexivity | split; [simpl; lia | exact Hc]].
      * destruct (IH (results ++ [first])%list) as [Hrej Hout].
        split; [exact Hrej |].
        intros out (added & -> & Hlen & Hc)%Hout.
        exists (first :: added). rewrite <- app_assoc.
        split; [reflexivity | split; [simpl; lia |]].
        constructor; [| exact Hc]. now apply Forall_cons in Hfind as [Hf _].
    + destruct (IH results) as [Hrej Hout]. split; [exact Hrej |].
      intros out (added & -> & Hlen & Hc)%Hout.
      exists added. split; [reflexivity | split; [simpl; lia | exact Hc]].
Qed.

(** [getAutocompleteSuggestions] is never rejected; it gives no suggestion
    without the SDK and when the autocomplete service reports a status
    other than OK, and at most five places otherwise, each with a name, an
    address and a photo list. *)
Theorem getAutocompleteSuggestions_at_most_five (env : Env)
    (predictions : string -> option PredictionsCallback) (input : string) :
  (forall reason,
     getAutocompleteSuggestions env predictions input <> Rejected reason) /\
  (google_loaded env = false ->
   getAutocompleteSuggestions env predictions input = Fulfilled []) /\
  (forall cb,
     google_loaded env = true -> predictions input = Some cb ->
     pc_status cb <> OK ->
     getAutocompleteSuggestions env predictions input = Fulfilled []) /\
  (forall out,
     getAutocompleteSuggestions env predictions input = Fulfilled out ->
     (length out <= 5)%nat /\ Forall complete out).
Proof.
  unfold getAutocompleteSuggestions. split; [| split; [| split]].
  - intros reason. destruct (google_loaded env); simpl; [| discriminate].
    destruct (predictions input) as [cb |]; [| discriminate].
    destruct (pc_status cb); try discriminate.
    destruct (pc_predictions cb); [apply collect_spec | discriminate].
  - now intros ->.
  - intros cb -> -> Hs. simpl. now destruct (pc_status cb).
  - intros out. destruct (google_loaded env); simpl;
      [| intros [= <-]; split; [simpl; lia | constructor]].
    destruct (predictions input) as [cb |]; [| discriminate].
    destruct (pc_status cb);
      try (intros [= <-]; split; [simpl; lia | constructor]).
    destruct (pc_predictions cb) as [descriptions |];
      [| intros [= <-]; split; [simpl; lia | constructor]].
    intros (added & -> & Hlen & Hc)%collect_spec. simpl.
    rewrite length_take in Hlen. split; [lia | exact Hc].
Qed.

Lemma getAutocompleteSuggestions_at_most_five_witness :
  getAutocompleteSuggestions (answering false hotelAndSushi)
    (fun _ => None) "su" = Fulfilled [] /\
  getAutocompleteSuggestions (answering true hotelAndSushi)
    (fun _ => Some {| pc_predictions := None; pc_status := ZERO_RESULTS |})
    "su" = Fulfilled [] /\
  (length [convertPlace (tagged "h1" ["lodging"])] <= 5)%nat.
Proof.
  split; [| split].
  - apply (getAutocompleteSuggestions_at_most_five
             (answering false hotelAndSushi)). reflexivity.
  - destruct (getAutocompleteSuggestions_at_most_five
                (answering true hotelAndSushi)
                (fun _ => Some {| pc_predictions := None;
                                  pc_status := ZERO_RESULTS |}) "su")
      as (_ & _ & Hstatus & _).
    apply (Hstatus {| pc_predictions := None; pc_status := ZERO_RESULTS |});
      [reflexivity | reflexivity | discriminate].
  - destruct (getAutocompleteSuggestions_at_most_five
                (answering true hotelAndSushi)
                (fun _ => Some {| pc_predictions := Some [Some "Sushi Bar"];
                                  pc_status := OK |}) "su")
      as (_ & _ & _ & Hout).
    apply (Hout [convertPlace (tagged "h1" ["lodging"])]). reflexivity.
Defined.

End AutocompleteExtras.

(** ** The classifier *)

Module ClassifierExtras.
Import Js Classifier.
Local Open Scope string_scope.

Lemma toLowerCase_char_idempotent (c : ascii) :
  toLowerCase_char (toLowerCase_char c) = toLowerCase_char c.
Proof. destruct c as [[] [] [] [] [] [] [] []]; reflexivity. Qed.

Lemma toLowerCase_idempotent (s : string) :
  toLowerCase (toLowerCase s) = toLowerCase s.
Proof.
  induction s as [| c s IH]; simpl; [reflexivity |].
  now rewrite toLowerCase_char_idempotent, IH.
Qed.

(** The category found for a query does not depend on the case of its
    letters: two queries with the same lower-case form get the same
    category, and a query gets the category of its lower-case form. *)
Theorem detectCategoryFromQuery_ignores_case (query : string) :
  detectCategoryFromQuery (toLowerCase query) = detectCategoryFromQuery query /\
  (forall other : string,
     toLowerCase other = toLowerCase query ->
     detectCategoryFromQuery other = detectCategoryFromQuery query).
Proof.
  split.
  - unfold detectCategoryFromQuery. now rewrite toLowerCase_idempotent.
  - intros other H. unfold detectCategoryFromQuery. now rewrite H.
Qed.

Lemma detectCategoryFromQuery_ignores_case_witness :
  detectCategoryFromQuery "SUSHI Restaurant"
  = detectCategoryFromQuery "sushi restaurant".
Proof.
  apply (detectCategoryFromQuery_ignores_case "sushi restaurant").
  reflexivity.
Defined.

End ClassifierExtras.

(** ** The display type of a filtered place *)

Module MapperExtras.
Import Geo Js ModernPlacesAPI Classifier Mapper.
Import AccFacts Samples.
Local Open Scope string_scope.

Lemma one_of_true (t : string) (l : list string) :
  one_of t l = true <-> t ∈ l.
Proof. unfold one_of. apply bool_decide_eq_true. Qed.

Lemma existsb_one_of (types_ accepted : list string) :
  existsb (fun t => one_of t accepted) types_ = true <->
  exists t, t ∈ accepted /\ includes_type types_ t = true.
Proof.
  rewrite existsb_exists. split.
  - intros (t & Hin & Ht%one_of_true). exists t. split; [exact Ht |].
    apply bool_decide_eq_true. now apply list_elem_of_In.
  - intros (t & Ht & Hin%bool_decide_eq_true). exists t.
    split; [now apply list_elem_of_In | now apply one_of_true].
Qed.

Lemma passesTypeFilter_tags withEstablishment pt (types_ : list string) :
  truthy pt = true -> types_ <> [] ->
  passesTypeFilter withEstablishment (Some pt) types_
  = existsb (isCorrectType withEstablishment pt) types_.
Proof.
  intros Hpt Hne. unfold passesTypeFilter. rewrite Hpt.
  destruct types_; [congruence | reflexivity].
Qed.

(** A place with tags that goes through the filter of the type lodging is
    displayed as a hotel, or as a restaurant when it is also tagged
    restaurant or food; one that goes through the filter of the type
    tourist_attraction is displayed as an attraction, a hotel or a
    restaurant.  A place tagged with none of the eight tags the mapper
    knows, such as one tagged cafe or shopping_mall only, is displayed as
    other. *)
Theorem display_type_of_a_filtered_place (r : GeocodingResult) :
  (types r <> [] ->
   passesTypeFilter true (Some "lodging") (types r) = true ->
   (type (convertToLocation r) = hotel <->
    includes_type (types r) "restaurant" = false /\
    includes_type (types r) "food" = false) /\
   (type (convertToLocation r) = restaurant <->
    includes_type (types r) "restaurant" = true \/
    includes_type (types r) "food" = true)) /\
  (types r <> [] ->
   passesTypeFilter true (Some "tourist_attraction") (types r) = true ->
   type (convertToLocation r) = attraction \/
   type (convertToLocation r) = hotel \/
   type (convertToLocation r) = restaurant) /\
  (Forall (fun t => t ∉ ["restaurant"; "food"; "lodging"; "hotel";
                          "tourist_attraction"; "point_of_interest";
                          "establishment"; "store"]) (types r) ->
   type (convertToLocation r) = other).
Proof.
  unfold convertToLocation; cbv zeta; simpl type.
  split; [| split].
  - intros Hne Hpass.
    rewrite passesTypeFilter_tags in Hpass by (reflexivity || exact Hne).
    change (existsb (fun t => one_of t ["lodging"; "hotel"]) (types r) = true)
      in Hpass.
    apply existsb_one_of in Hpass as (t & Hin & Hhas).
    assert (Hl : includes_type (types r) "lodging"
                 || includes_type (types r) "hotel" = true).
    { apply orb_true_iff.
      apply elem_of_cons in Hin as [-> | Hin]; [now left |].
      apply list_elem_of_singleton in Hin as ->. now right. }
    destruct (includes_type (types r) "restaurant"),
             (includes_type (types r) "food"); simpl;
      rewrite ?Hl; split; split; intros; try discriminate; try tauto;
      try (destruct H; discriminate); intuition discriminate.
  - intros Hne Hpass.
    rewrite passesTypeFilter_tags in Hpass by (reflexivity || exact Hne).
    change (existsb (fun t => one_of t ["tourist_attraction"; "point_of_interest"])
              (types r) = true) in Hpass.
    apply existsb_one_of in Hpass as (t & Hin & Hhas).
    assert (Hl : includes_type (types r) "tourist_attraction"
                 || includes_type (types r) "point_of_interest" = true).
    { apply orb_true_iff.
      apply elem_of_cons in Hin as [-> | Hin]; [now left |].
      apply list_elem_of_singleton in Hin as ->. now right. }
    destruct (includes_type (types r) "restaurant"
              || includes_type (types r) "food");
      [right; right; reflexivity |].
    destruct (includes_type (types r) "lodging"
              || includes_type (types r) "hotel");
      [right; left; reflexivity |].
    rewrite Hl. now left.
  - intros Hall.
    assert (Hno : forall t,
              t ∈ ["restaurant"; "food"; "lodging"; "hotel";
                   "tourist_attraction"; "point_of_interest";
                   "establishment"; "store"] ->
              includes_type (types r) t = false).
    { intros t Ht. apply bool_decide_eq_false. intros Hin.
      rewrite Forall_forall in Hall. now apply (Hall t Hin). }
    rewrite !Hno by (repeat first [apply list_elem_of_here
                                  | apply list_elem_of_further]).
    reflexivity.
Qed.

Lemma display_type_of_a_filtered_place_witness :
  type (convertToLocation (place "h" 40.75 (-73.98) ["lodging"] None)) = hotel /\
  (type (convertToLocation
          (place "m" 40.75 (-73.98) ["point_of_interest"] None)) = attraction \/
   type (convertToLocation
          (place "m" 40.75 (-73.98) ["point_of_interest"] None)) = hotel \/
   type (convertToLocation
          (place "m" 40.75 (-73.98) ["point_of_interest"] None)) = restaurant) /\
  type (convertToLocation (place "c" 40.75 (-73.98) ["cafe"] None)) = other.
Proof.
  split; [| split].
  - destruct (display_type_of_a_filtered_place
                (place "h" 40.75 (-73.98) ["lodging"] None)) as (Hl & _).
    apply Hl; [discriminate | reflexivity | split; reflexivity].
  - destruct (display_type_of_a_filtered_place
                (place "m" 40.75 (-73.98) ["point_of_interest"] None))
      as (_ & Ha & _).
    apply Ha; [discriminate | reflexivity].
  - apply (display_type_of_a_filtered_place
             (place "c" 40.75 (-73.98) ["cafe"] None)).
    repeat constructor; intros H; repeat (apply elem_of_cons in H as [H | H];
      [discriminate |]); now apply elem_of_nil in H.
Defined.

End MapperExtras.

(** ** The search of the map component *)

Module AppExtras.
Import Geo Js ModernPlacesAPI Classifier Mapper App.
Import AccFacts AdapterClaims AppClaims Samples.
Local Open Scope string_scope.






End AppExtras.

(** ** The recent searches of the search bar *)

Module SearchBarExtras.
Import SearchBar.
Local Open Scope string_scope.

Lemma filter_other_id (term : string) (l : list string) :
  term ∉ l -> filter (fun s => s <> term) l = l.
Proof.
  induction l as [| x l IH]; intros Hn; [reflexivity |].
  apply not_elem_of_cons in Hn as [Hx Hl].
  rewrite filter_cons_True by auto. now rewrite IH.
Qed.

Lemma not_elem_of_filter_other (term : string) (l : list string) :
  term ∉ filter (fun s => s <> term) l.
Proof. intros [H _]%list_elem_of_filter. now apply H. Qed.

(** Saving a search term puts it first, keeps the other terms in their
    order and at most ten terms in all; a list without repetition stays
    without repetition, and saving the same term again changes nothing. *)
Theorem saveToRecentSearches_most_recent_first (recentSearches : list string)
    (searchTerm : string) :
  let saved := saveToRecentSearches recentSearches searchTerm in
  head saved = Some searchTerm /\
  (length saved <= 10)%nat /\
  filter (fun s => s <> searchTerm) saved
    `prefix_of` filter (fun s => s <> searchTerm) recentSearches /\
  (NoDup recentSearches -> NoDup saved) /\
  saveToRecentSearches saved searchTerm = saved.
Proof.
  cbv zeta. unfold saveToRecentSearches.
  set (others := filter (fun s => s <> searchTerm) recentSearches).
  assert (Hno : searchTerm ∉ others) by apply not_elem_of_filter_other.
  change (take 10 (searchTerm :: others)) with (searchTerm :: take 9 others).
  assert (Hno9 : searchTerm ∉ take 9 others).
  { intros H. apply Hno. eapply elem_of_sublist; [exact H | apply sublist_take]. }
  split; [reflexivity |].
  split; [simpl; rewrite length_take; lia |].
  split; [| split].
  - rewrite filter_cons_False by auto. rewrite filter_other_id by exact Hno9.
    apply prefix_take.
  - intros Hnd. apply NoDup_cons. split; [exact Hno9 |].
    eapply sublist_NoDup; [| apply sublist_take].
    eapply sublist_NoDup; [exact Hnd | apply sublist_filter].
  - rewrite filter_cons_False by auto. rewrite filter_other_id by exact Hno9.
    change (take 10 (searchTerm :: take 9 others))
      with (searchTerm :: take 9 (take 9 others)).
    now rewrite take_take, Nat.min_id.
Qed.

Lemma saveToRecentSearches_most_recent_first_witness :
  NoDup (saveToRecentSearches ["pizza"; "sushi"; "museum"] "sushi").
Proof.
  apply (saveToRecentSearches_most_recent_first
           ["pizza"; "sushi"; "museum"] "sushi").
  repeat constructor; intros H;
    repeat (apply elem_of_cons in H as [H | H]; [discriminate |]);
    now apply elem_of_nil in H.
Defined.

End SearchBarExtras.
